(** * Transaction manager of the kafkajs producer

    A shallow embedding of [src/producer/transactionManager.js]: the
    lifecycle state machine, the per topic-partition sequence numbers and the
    bookkeeping of the partitions enlisted in a transaction.

    The closure variables of the module ([producerId], [producerEpoch],
    [producerSequence], [transactionTopicPartitions], [currentState]) form an
    explicit [store].  An operation is a function from the store to a
    [proc]ess: it returns, throws, or suspends at an [await] on a call to the
    cluster or to a broker, handing over the store as it is at that point and
    resuming from the store as it is when the reply arrives.

    The properties are stated on the operations as the object literal
    defines them; these are the functions that the returned object holds
    ([guarded_operations]).

    Numbers are integers; a sum is that of JavaScript where a number holds
    it exactly ([exact_sum]).  The two tables are objects created by [{}]
    and kept as finite maps over their own keys: this is the object for the
    topics that are not named like a member of [Object.prototype]
    ([inherited]), as long as that prototype has no member named by a
    partition ([prototype_untouched]); the properties of the sequence
    numbers are stated under these conditions.  In
    [addPartitionsToTransaction] the read of an inherited member is part of
    the embedding, since the push on it throws. *)

From stdpp Require Import gmap strings list fin_maps.
From Stdlib Require Import ZArith String Ascii Permutation.

Local Open Scope string_scope.
Local Open Scope Z_scope.

(** ** Constants *)

Definition NO_PRODUCER_ID : Z := -1.
Definition SEQUENCE_START : Z := 0.
(** [Math.pow(2, 32)] *)
Definition INT_32_MAX_VALUE : Z := 2 ^ 32.

(** The keys of the [STATES] object. *)
Inductive state_key : Type :=
| UNINITIALIZED
| READY
| TRANSACTING
| COMMITTING
| ABORTING.

Definition state_keys : list state_key :=
  [UNINITIALIZED; READY; TRANSACTING; COMMITTING; ABORTING].

#[global] Instance state_key_eq_dec : EqDecision state_key.
Proof. solve_decision. Defined.

(** The [STATES] object, read as [STATES.KEY]: every key holds a string, and
    a lifecycle state at run time is that string. *)
Definition STATES (k : state_key) : string :=
  match k with
  | UNINITIALIZED => "UNINITIALIZED"
  | READY => "READY"
  | TRANSACTING => "TRANSACTING"
  | COMMITTING => "COMMITTING"
  | ABORTING => "COMMITTING"
  end.

(** The [VALID_TRANSITIONS] object literal.  Its computed keys are added in
    the order of the literal, a later key replacing an equal earlier one. *)
Definition VALID_TRANSITIONS : gmap string (list string) :=
  <[STATES ABORTING := [STATES READY]]>
  (<[STATES COMMITTING := [STATES READY]]>
  (<[STATES TRANSACTING := [STATES COMMITTING; STATES ABORTING]]>
  (<[STATES READY := [STATES READY; STATES TRANSACTING]]>
  (<[STATES UNINITIALIZED := [STATES READY]]> ∅)))).

(** [Array.prototype.includes] on an array of strings. *)
Definition includes (l : list string) (x : string) : bool :=
  bool_decide (x ∈ l).

(** The double quote of the message templates. *)
Definition dquote : string := String (ascii_of_nat 34) EmptyString.

(** ** Errors *)

(** What an operation can throw: the module's own [KafkaJSNonRetriableError]
    with its message, the [TypeError] of the JavaScript run time (a property
    read or written on [undefined]), and whatever a cluster or broker call
    rejects with, which the module never catches. *)
Inductive error : Type :=
| KafkaJSNonRetriableError (message : string)
| TypeError (message : string)
| CollaboratorError (code : Z).

(** The error kinds of the specification are told apart by the message. *)
Definition InvalidStateTransition (e : error) : bool :=
  match e with
  | KafkaJSNonRetriableError m => String.prefix "Transaction state exception: " m
  | _ => false
  end.

Definition TransactionalOperationUnavailable (e : error) : bool :=
  match e with
  | KafkaJSNonRetriableError m => String.eqb m "Method unavailable if non-transactional"
  | _ => false
  end.

(** ** The store *)

(** A JavaScript object used as a dictionary is a finite map over its own
    keys; a partition number used as a key is kept as the number.  A key
    that is missing reads [undefined], which is what the object does for
    every key but the names of the members of [Object.prototype]. *)
Record store : Type := mkStore {
  producerId : Z;
  producerEpoch : Z;
  producerSequence : gmap string (gmap Z Z);
  transactionTopicPartitions : gmap string (gmap Z bool);
  currentState : string;
}.

Definition initial_store : store :=
  {| producerId := NO_PRODUCER_ID;
     producerEpoch := 0;
     producerSequence := ∅;
     transactionTopicPartitions := ∅;
     currentState := STATES UNINITIALIZED |}.

Definition set_producerId (v : Z) (s : store) : store :=
  mkStore v (producerEpoch s) (producerSequence s) (transactionTopicPartitions s) (currentState s).
Definition set_producerEpoch (v : Z) (s : store) : store :=
  mkStore (producerId s) v (producerSequence s) (transactionTopicPartitions s) (currentState s).
Definition set_producerSequence (v : gmap string (gmap Z Z)) (s : store) : store :=
  mkStore (producerId s) (producerEpoch s) v (transactionTopicPartitions s) (currentState s).
Definition set_transactionTopicPartitions (v : gmap string (gmap Z bool)) (s : store) : store :=
  mkStore (producerId s) (producerEpoch s) (producerSequence s) v (currentState s).
Definition set_currentState (v : string) (s : store) : store :=
  mkStore (producerId s) (producerEpoch s) (producerSequence s) (transactionTopicPartitions s) v.

(** ** Configuration *)

Record config : Type := mkConfig {
  transactional : bool;
  (** [None] is [undefined] *)
  transactionalId : option string;
  (** [None] when the caller leaves it out *)
  transactionTimeout_arg : option Z;
}.

(** [transactionTimeout = 60000] in the parameter list *)
Definition transactionTimeout (cfg : config) : Z :=
  default 60000 (transactionTimeout_arg cfg).

(** Truthiness of a string or [undefined]. *)
Definition truthy_string (o : option string) : bool :=
  match o with
  | Some s => negb (String.eqb s EmptyString)
  | None => false
  end.

(** ** Collaborators *)

(** A broker is known by its node id. *)
Definition broker : Type := Z.

(** Modelled from the spec: the module [../protocol/coordinatorTypes] is not
    among the sources; the only member used is [TRANSACTION]. *)
Inductive COORDINATOR_TYPES : Type :=
| TRANSACTION.

(** One entry of the [topics] array of an [addPartitionsToTxn] request. *)
Record topic_partitions : Type := mkTopicPartitions {
  tp_topic : string;
  tp_partitions : list Z;
}.

(** The awaited calls, with their arguments. *)
Inductive call : Type :=
| cluster_refreshMetadataIfNecessary
| cluster_findGroupCoordinator (groupId : option string) (coordinatorType : COORDINATOR_TYPES)
| cluster_findControllerBroker
| broker_initProducerId (b : broker) (txnId : option string) (timeout : Z)
| broker_addPartitionsToTxn (b : broker) (txnId : option string)
    (pid epoch : Z) (topics : list topic_partitions)
| broker_endTxn (b : broker) (pid epoch : Z) (txnId : option string)
    (transactionalResult : bool).

Record initProducerId_result : Type := mkInitResult {
  result_producerId : Z;
  result_producerEpoch : Z;
}.

(** What each call resolves with. *)
Definition reply_type (q : call) : Type :=
  match q with
  | cluster_refreshMetadataIfNecessary => unit
  | cluster_findGroupCoordinator _ _ => broker
  | cluster_findControllerBroker => broker
  | broker_initProducerId _ _ _ => initProducerId_result
  | broker_addPartitionsToTxn _ _ _ _ _ => unit
  | broker_endTxn _ _ _ _ _ => unit
  end.

(** A settled promise of a call: rejected with an error or resolved. *)
Definition reply (q : call) : Type := (error + reply_type q)%type.

(** ** Processes *)

(** The run of an operation from a store: it returns with a value, throws, or
    is suspended at an [await].  The suspended process exposes the store it
    leaves behind and resumes, once the call has settled, from the store it
    finds then. *)
Inductive proc (A : Type) : Type :=
| Ret (s : store) (a : A)
| Throw (s : store) (e : error)
| Await (s : store) (q : call) (k : reply q -> store -> proc A).

Arguments Ret {A} s a.
Arguments Throw {A} s e.
Arguments Await {A} s q k.

Definition M (A : Type) : Type := store -> proc A.

Fixpoint bind {A B : Type} (p : proc A) (f : A -> M B) : proc B :=
  match p with
  | Ret s a => f a s
  | Throw s e => Throw s e
  | Await s q k => Await s q (fun r s' => bind (k r s') f)
  end.

Definition ret {A : Type} (a : A) : M A := fun s => Ret s a.
Definition throw {A : Type} (e : error) : M A := fun s => Throw s e.
Definition bindM {A B : Type} (m : M A) (f : A -> M B) : M B :=
  fun s => bind (m s) f.
(** read a closure variable *)
Definition gets {A : Type} (f : store -> A) : M A := fun s => Ret s (f s).
(** assign closure variables *)
Definition modify (f : store -> store) : M unit := fun s => Ret (f s) tt.
(** [await] on a call: a rejection is thrown at the await *)
Definition await (q : call) : M (reply_type q) :=
  fun s => Await s q (fun r s' =>
    match r with
    | inl e => Throw s' e
    | inr v => Ret s' v
    end).

Declare Scope proc_scope.
Delimit Scope proc_scope with proc.
Notation "x <- m ;; k" := (bindM m (fun x => k))
  (at level 100, m at next level, right associativity) : proc_scope.
Notation "m ;; k" := (bindM m (fun _ => k))
  (at level 100, right associativity) : proc_scope.
Local Open Scope proc_scope.

(** *** Running a process *)

(** The environment settles the [n]-th awaited call of a run. *)
Definition env : Type := forall (n : nat) (q : call), reply q.

Inductive outcome (A : Type) : Type :=
| Resolved (s : store) (a : A)
| Rejected (s : store) (e : error).

Arguments Resolved {A} s a.
Arguments Rejected {A} s e.

Definition final_store {A : Type} (o : outcome A) : store :=
  match o with
  | Resolved s _ => s
  | Rejected s _ => s
  end.

(** The run of a process alone on its store (nothing else touches the store
    while it is suspended): the calls it awaits, each with the store at the
    suspension, and how it ends. *)
Fixpoint run_from {A : Type} (n : nat) (E : env) (p : proc A)
  : list (store * call) * outcome A :=
  match p with
  | Ret s a => ([], Resolved s a)
  | Throw s e => ([], Rejected s e)
  | Await s q k =>
      let (tr, o) := run_from (S n) E (k (E n q) s) in
      ((s, q) :: tr, o)
  end.

Definition run {A : Type} (E : env) (p : proc A) : list (store * call) * outcome A :=
  run_from 0 E p.

(** ** The object handed out *)

(** One element of the [topicData] argument of [addPartitionsToTransaction];
    each entry [{ partition }] of [partitions] is kept as its number. *)
Record TopicData : Type := mkTopicData {
  topic : string;
  partitions : list Z;
}.

(** The properties of the [transactionManager] object that the guard
    registrations name, and the property called [method], which is
    [undefined] ([None]) on the object literal. *)
Record object : Type := mkObject {
  prop_initProducerId : M unit;
  prop_getSequence : string -> Z -> M Z;
  prop_updateSequence : string -> Z -> Z -> M unit;
  prop_beginTransaction : M unit;
  prop_addPartitionsToTransaction : list TopicData -> M unit;
  prop_commit : M unit;
  prop_abort : M unit;
  prop_method : option (M unit);
}.

(** ** The state machine *)

Module stateMachine.

(** The payload of a ['transition'] event. *)
Record transition : Type := mkTransition {
  to : string;
  from : string;
}.

(** [stateMachine.on('transition', ({ to }) => ...)]: the one listener. *)
Definition on_transition (ev : transition) (s : store) : store :=
  if String.eqb (to ev) (STATES READY)
  then set_transactionTopicPartitions ∅ s
  else s.

Definition listeners : list (transition -> store -> store) :=
  [on_transition].

(** [stateMachine.emit('transition', ev)] calls the listeners in turn. *)
Definition emit (ev : transition) (s : store) : store :=
  fold_left (fun s' l => l ev s') listeners s.

(** [guard(object, method, eligibleStates)]: reads the property [method] of
    the object into [fn] and assigns the wrapper to the property [method].
    The argument [method] only names the operation in the message. *)
Definition guard (obj : object) (method : string) (eligibleStates : list string)
  : object :=
  let fn := prop_method obj in
  mkObject (prop_initProducerId obj) (prop_getSequence obj)
    (prop_updateSequence obj) (prop_beginTransaction obj)
    (prop_addPartitionsToTransaction obj) (prop_commit obj) (prop_abort obj)
    (Some (fun s =>
       if negb (includes eligibleStates (currentState s))
       then Throw s (KafkaJSNonRetriableError
              ("Transaction state exception: Cannot call " ++ dquote ++ method
               ++ dquote ++ " in state " ++ dquote ++ currentState s ++ dquote))
       else match fn with
            | Some f => f s
            | None => Throw s (TypeError "Cannot read properties of undefined (reading 'apply')")
            end)).

(** [transitionTo(state)].  The calls of [logger.debug], here and in the
    operations, only report and are left out. *)
Definition transitionTo (state : string) : M unit := fun s =>
  match VALID_TRANSITIONS !! currentState s with
  | None => Throw s (TypeError "Cannot read properties of undefined (reading 'includes')")
  | Some successors =>
      if negb (includes successors state)
      then Throw s (KafkaJSNonRetriableError
             ("Transaction state exception: Invalid transition "
              ++ currentState s ++ " --> " ++ state))
      else
        let s' := emit (mkTransition state (currentState s)) s in
        Ret (set_currentState state s') tt
  end.

End stateMachine.

(** ** Own keys of an object, in the order of [Object.keys] *)

Definition is_digit (c : ascii) : bool :=
  let n := nat_of_ascii c in ((48 <=? n) && (n <=? 57))%nat.

Fixpoint digits_value (s : string) (acc : Z) : option Z :=
  match s with
  | EmptyString => Some acc
  | String c r =>
      if is_digit c
      then digits_value r (10 * acc + (Z.of_nat (nat_of_ascii c) - 48))
      else None
  end.

(** A key is an array index when it is the decimal numeral, without sign or
    leading zero, of an integer up to [2^32 - 2]. *)
Definition array_index (k : string) : option Z :=
  match k with
  | EmptyString => None
  | String c r =>
      if (nat_of_ascii c =? 48)%nat && negb (String.eqb r EmptyString)
      then None
      else match digits_value k 0 with
           | Some n => if n <=? 2 ^ 32 - 2 then Some n else None
           | None => None
           end
  end.

Fixpoint insert_index (n : Z) (k : string) (l : list (Z * string)) : list (Z * string) :=
  match l with
  | [] => [(n, k)]
  | (m, k') :: r =>
      if n <? m then (n, k) :: l else (m, k') :: insert_index n k r
  end.

(** The array-index keys in ascending order. *)
Fixpoint index_keys (ks : list string) : list (Z * string) :=
  match ks with
  | [] => []
  | k :: r =>
      match array_index k with
      | Some n => insert_index n k (index_keys r)
      | None => index_keys r
      end
  end.

(** [Object.keys] of an object whose own properties were created in the order
    of the list: array indices first, ascending, then the other keys in the
    order of creation. *)
Definition Object_keys {V : Type} (o : list (string * V)) : list string :=
  map snd (index_keys (map fst o))
  ++ filter (fun k => array_index k = None) (map fst o).

(** [o[k]] on such an object. *)
Fixpoint get_property {V : Type} (k : string) (o : list (string * V)) : option V :=
  match o with
  | [] => None
  | (k', v) :: r => if String.eqb k' k then Some v else get_property k r
  end.

(** [forEach] with a callback that acts on the store. *)
Fixpoint forEach {A : Type} (l : list A) (f : A -> M unit) : M unit :=
  match l with
  | [] => ret tt
  | x :: r => f x ;; forEach r f
  end.

(** [a || b] on a number that may be [undefined]. *)
Definition or_number (a : option Z) (b : Z) : Z :=
  match a with
  | Some v => if v =? 0 then b else v
  | None => b
  end.

(** [!inner[partition]] reads as not enlisted: a missing key is [undefined]. *)
Definition is_true (v : option bool) : bool := default false v.

(** The names under which an object created by [{}] inherits a member of
    [Object.prototype]: read on an object that has no own key of that name,
    each yields the inherited member, a function, and [__proto__] the
    prototype itself. *)
Definition prototype_members : list string :=
  ["constructor"; "__defineGetter__"; "__defineSetter__"; "hasOwnProperty";
   "__lookupGetter__"; "__lookupSetter__"; "isPrototypeOf";
   "propertyIsEnumerable"; "toString"; "valueOf"; "__proto__"; "toLocaleString"].

Definition inherited (k : string) : bool :=
  bool_decide (k ∈ prototype_members).

(** ** The operations *)

Module transactionManager.
Section WithConfig.

(** The parameters of the factory function. *)
Variable cfg : config.

Definition transactionalGuard : M unit :=
  if negb (transactional cfg)
  then throw (KafkaJSNonRetriableError "Method unavailable if non-transactional")
  else ret tt.

Definition getProducerId : M Z := gets producerId.
Definition getProducerEpoch : M Z := gets producerEpoch.
Definition getTransactionalId : M (option string) := ret (transactionalId cfg).

Definition isInitialized : M bool :=
  gets (fun s => negb (producerId s =? NO_PRODUCER_ID)).
Definition isTransactional : M bool := ret (transactional cfg).
Definition isInTransaction : M bool :=
  gets (fun s => String.eqb (currentState s) (STATES TRANSACTING)).

Definition initProducerId : M unit :=
  await cluster_refreshMetadataIfNecessary ;;
  broker <- (if transactional cfg
             then await (cluster_findGroupCoordinator (transactionalId cfg) TRANSACTION)
             else await cluster_findControllerBroker) ;;
  result <- await (broker_initProducerId broker
              (if transactional cfg then transactionalId cfg else None)
              (transactionTimeout cfg)) ;;
  stateMachine.transitionTo (STATES READY) ;;
  modify (set_producerId (result_producerId result)) ;;
  modify (set_producerEpoch (result_producerEpoch result)) ;;
  modify (set_producerSequence ∅).

(** The two reads [producerSequence[topic]] and
    [producerSequence[topic][partition]] are reads of own keys: those of the
    object when [topic] is not the name of a member of [Object.prototype]
    and the prototype has no member named by [partition]. *)
Definition getSequence (topic : string) (partition : Z) : M Z :=
  initialized <- isInitialized ;;
  if negb initialized then ret SEQUENCE_START
  else
    (* producerSequence[topic] = producerSequence[topic] || {} *)
    modify (fun s =>
      set_producerSequence
        (<[topic := default ∅ (producerSequence s !! topic)]> (producerSequence s)) s) ;;
    (* producerSequence[topic][partition] = producerSequence[topic][partition] || SEQUENCE_START *)
    modify (fun s =>
      let inner := default ∅ (producerSequence s !! topic) in
      set_producerSequence
        (<[topic := <[partition := or_number (inner !! partition) SEQUENCE_START]> inner]>
           (producerSequence s)) s) ;;
    gets (fun s => default 0 (default ∅ (producerSequence s !! topic) !! partition)).

(** [producerSequence[topic][partition] = sequence] *)
Definition assign_sequence (topic : string) (partition : Z) (sequence : Z) : M unit :=
  fun s =>
    match producerSequence s !! topic with
    | None => Throw s (TypeError "Cannot set properties of undefined")
    | Some inner =>
        Ret (set_producerSequence
               (<[topic := <[partition := sequence]> inner]> (producerSequence s)) s) tt
    end.

(** [previous + increment] is the sum of the integers: that of the
    JavaScript numbers when these hold the operands and the sum exactly. *)
Definition updateSequence (topic : string) (partition : Z) (increment : Z) : M unit :=
  initialized <- isInitialized ;;
  if negb initialized then ret tt
  else
    previous <- getSequence topic partition ;;
    let sequence := previous + increment in
    let sequence := if sequence >=? INT_32_MAX_VALUE then 0 else sequence in
    assign_sequence topic partition sequence.

Definition beginTransaction : M unit :=
  transactionalGuard ;;
  stateMachine.transitionTo (STATES TRANSACTING).

(** The push on the array under an own key of [newTopicPartitions], which is
    created empty when the key is new; a new key comes last. *)
Fixpoint push_own (topic : string) (partition : Z)
    (o : list (string * list Z)) : list (string * list Z) :=
  match o with
  | [] => [(topic, [partition])]
  | (t, ps) :: r =>
      if String.eqb t topic
      then (t, (ps ++ [partition])%list) :: r
      else (t, ps) :: push_own topic partition r
  end.

(** [newTopicPartitions[topic] = newTopicPartitions[topic] || []] followed
    by [newTopicPartitions[topic].push(partition)].  The local object is
    created by [{}] and only this statement gives it keys: under the name of
    a member of [Object.prototype] the read yields that member, which has
    no [push], and the call throws. *)
Definition push_partition (topic : string) (partition : Z)
    (o : list (string * list Z)) : error + list (string * list Z) :=
  if inherited topic
  then inl (TypeError "newTopicPartitions[topic].push is not a function")
  else inr (push_own topic partition o).

(** The inner [partitions.forEach]: for every partition with
    [!transactionTopicPartitions[topic][partition]] the push onto
    [newTopicPartitions[topic]]; a throw ends the loop. *)
Fixpoint collect_partitions (inner : gmap Z bool) (topic : string)
    (ps : list Z) (o : list (string * list Z)) : error + list (string * list Z) :=
  match ps with
  | [] => inr o
  | partition :: r =>
      if negb (is_true (inner !! partition))
      then match push_partition topic partition o with
           | inl e => inl e
           | inr o' => collect_partitions inner topic r o'
           end
      else collect_partitions inner topic r o
  end.

(** The outer [topicData.forEach], acting on [transactionTopicPartitions]
    and on the local [newTopicPartitions]: for every topic
    [transactionTopicPartitions[topic] = transactionTopicPartitions[topic] || {}]
    and then the inner loop.  A throw ends it, with
    [transactionTopicPartitions] as the loop has left it. *)
Fixpoint collect_topics (topicData : list TopicData)
    (enlistment : gmap string (gmap Z bool)) (o : list (string * list Z))
  : gmap string (gmap Z bool) * (error + list (string * list Z)) :=
  match topicData with
  | [] => (enlistment, inr o)
  | td :: r =>
      let inner := default ∅ (enlistment !! topic td) in
      let enlistment' := <[topic td := inner]> enlistment in
      match collect_partitions inner (topic td) (partitions td) o with
      | inl e => (enlistment', inl e)
      | inr o' => collect_topics r enlistment' o'
      end
  end.

(** [Object.keys(newTopicPartitions).map(topic => ({ topic, partitions }))] *)
Definition request_topics (o : list (string * list Z)) : list topic_partitions :=
  map (fun t => mkTopicPartitions t (default [] (get_property t o))) (Object_keys o).

(** [transactionTopicPartitions[topic][partition] = true] *)
Definition assign_enlisted (topic : string) (partition : Z) : M unit :=
  fun s =>
    match transactionTopicPartitions s !! topic with
    | None => Throw s (TypeError "Cannot set properties of undefined")
    | Some inner =>
        Ret (set_transactionTopicPartitions
               (<[topic := <[partition := true]> inner]> (transactionTopicPartitions s)) s) tt
    end.

Definition addPartitionsToTransaction (topicData : list TopicData) : M unit :=
  transactionalGuard ;;
  enlisted <- gets transactionTopicPartitions ;;
  let collected := collect_topics topicData enlisted [] in
  modify (set_transactionTopicPartitions collected.1) ;;
  match collected.2 with
  | inl e => throw e
  | inr newTopicPartitions =>
      let topics := request_topics newTopicPartitions in
      (if (List.length topics =? 0)%nat then ret tt
       else
         broker <- await (cluster_findGroupCoordinator (transactionalId cfg) TRANSACTION) ;;
         pid <- gets producerId ;;
         epoch <- gets producerEpoch ;;
         await (broker_addPartitionsToTxn broker (transactionalId cfg) pid epoch topics)) ;;
      forEach topics (fun tp =>
        forEach (tp_partitions tp) (fun partition =>
          assign_enlisted (tp_topic tp) partition))
  end.

Definition commit : M unit :=
  transactionalGuard ;;
  stateMachine.transitionTo (STATES COMMITTING) ;;
  broker <- await (cluster_findGroupCoordinator (transactionalId cfg) TRANSACTION) ;;
  pid <- gets producerId ;;
  epoch <- gets producerEpoch ;;
  await (broker_endTxn broker pid epoch (transactionalId cfg) true) ;;
  stateMachine.transitionTo (STATES READY).

Definition abort : M unit :=
  transactionalGuard ;;
  stateMachine.transitionTo (STATES ABORTING) ;;
  broker <- await (cluster_findGroupCoordinator (transactionalId cfg) TRANSACTION) ;;
  pid <- gets producerId ;;
  epoch <- gets producerEpoch ;;
  await (broker_endTxn broker pid epoch (transactionalId cfg) false) ;;
  stateMachine.transitionTo (STATES READY).

(** The object literal. *)
Definition literal : object :=
  mkObject initProducerId getSequence updateSequence beginTransaction
    addPartitionsToTransaction commit abort None.

(** The guard registrations, in the order of the source. *)
Definition guarded : object :=
  let o := literal in
  let o := stateMachine.guard o "initProducerId" [STATES UNINITIALIZED; STATES READY] in
  let o := stateMachine.guard o "beginTransaction" [STATES READY] in
  let o := stateMachine.guard o "getSequence" [STATES TRANSACTING] in
  let o := stateMachine.guard o "updateSequence" [STATES TRANSACTING] in
  let o := stateMachine.guard o "addPartitionsToTransaction" [STATES TRANSACTING] in
  let o := stateMachine.guard o "commit" [STATES TRANSACTING] in
  let o := stateMachine.guard o "abort" [STATES TRANSACTING] in
  o.

End WithConfig.
End transactionManager.

(** The exported factory: it throws on a transactional configuration without
    a [transactionalId], and otherwise returns the object, whose closure
    variables start as [initial_store]. *)
Definition createTransactionManager (cfg : config) : error + object :=
  if transactional cfg && negb (truthy_string (transactionalId cfg))
  then inl (KafkaJSNonRetriableError "Cannot manage transactions without a transactionalId")
  else inr (transactionManager.guarded cfg).

(** ** Vocabulary of the properties *)

(** The transition graph in the words of the specification:
    UNINITIALIZED -> READY; READY -> READY | TRANSACTING;
    TRANSACTING -> COMMITTING | ABORTING; COMMITTING -> READY;
    ABORTING -> READY. *)
Definition legal_successor (current target : state_key) : bool :=
  match current, target with
  | UNINITIALIZED, READY => true
  | READY, READY => true
  | READY, TRANSACTING => true
  | TRANSACTING, COMMITTING => true
  | TRANSACTING, ABORTING => true
  | COMMITTING, READY => true
  | ABORTING, READY => true
  | _, _ => false
  end.

(** The sequence number on record for a topic-partition; none reads as 0. *)
Definition stored_sequence (s : store) (topic : string) (partition : Z) : Z :=
  default 0 (producerSequence s !! topic ≫= (.!! partition)).

(** The end of a transaction in the words of the specification, from the
    store [parked] in COMMITTING or ABORTING: the coordinator is resolved,
    the end-transaction request is issued with the given result, and only
    when it succeeds does the aggregate go back to READY, with the
    enlistment emptied; a rejected call leaves the aggregate parked. *)
Definition end_transaction_protocol (E : env) (cfg : config) (parked : store)
    (committed : bool) : list (store * call) * outcome unit :=
  let find := cluster_findGroupCoordinator (transactionalId cfg) TRANSACTION in
  match E 0%nat find with
  | inl e => ([(parked, find)], Rejected parked e)
  | inr b =>
      let request :=
        broker_endTxn b (producerId parked) (producerEpoch parked)
          (transactionalId cfg) committed in
      match E 1%nat request with
      | inl e => ([(parked, find); (parked, request)], Rejected parked e)
      | inr _ =>
          ([(parked, find); (parked, request)],
           Resolved (set_currentState (STATES READY)
                       (set_transactionTopicPartitions ∅ parked)) tt)
      end
  end.

(** *** Invocations *)

(** A call of one of the operations that the guard registrations name, with
    its arguments. *)
Inductive operation : Type :=
| call_initProducerId
| call_beginTransaction
| call_getSequence (topic : string) (partition : Z)
| call_updateSequence (topic : string) (partition increment : Z)
| call_addPartitionsToTransaction (topicData : list TopicData)
| call_commit
| call_abort.

(** The call on the object, as a caller makes it; a returned value is
    dropped. *)
Definition invoke (o : object) (op : operation) : M unit :=
  match op with
  | call_initProducerId => prop_initProducerId o
  | call_beginTransaction => prop_beginTransaction o
  | call_getSequence t p => (_ <- prop_getSequence o t p ;; ret tt)
  | call_updateSequence t p i => prop_updateSequence o t p i
  | call_addPartitionsToTransaction td => prop_addPartitionsToTransaction o td
  | call_commit => prop_commit o
  | call_abort => prop_abort o
  end.

(** The table of eligible states of the specification, by key. *)
Definition eligible_states (op : operation) : list state_key :=
  match op with
  | call_initProducerId => [UNINITIALIZED; READY]
  | call_beginTransaction => [READY]
  | call_getSequence _ _ => [TRANSACTING]
  | call_updateSequence _ _ _ => [TRANSACTING]
  | call_addPartitionsToTransaction _ => [TRANSACTING]
  | call_commit => [TRANSACTING]
  | call_abort => [TRANSACTING]
  end.

(** The operations that end with a transition to READY. *)
Definition transitions_to_READY (op : operation) : bool :=
  match op with
  | call_initProducerId | call_commit | call_abort => true
  | _ => false
  end.

(** *** Enlistment *)

(** Whether a (topic, partition) pair is enlisted: its entry holds [true]. *)
Definition enlisted (m : gmap string (gmap Z bool)) (t : string) (p : Z) : bool :=
  is_true (m !! t ≫= (.!! p)).

(** Every pair enlisted in [m] is enlisted in [m']. *)
Definition keeps (m m' : gmap string (gmap Z bool)) : Prop :=
  forall t p, enlisted m t p = true -> enlisted m' t p = true.

(** The (topic, partition) pairs that a [topicData] argument names. *)
Definition named_pairs (topicData : list TopicData) : list (string * Z) :=
  flat_map (fun td => map (pair (topic td)) (partitions td)) topicData.

(** The delta in the words of the specification: the named pairs that are
    not already enlisted. *)
Definition delta (m : gmap string (gmap Z bool)) (topicData : list TopicData)
  : list (string * Z) :=
  filter (fun tp => enlisted m tp.1 tp.2 = false) (named_pairs topicData).

(** The (topic, partition) pairs that a request carries. *)
Definition request_pairs (topics : list topic_partitions) : list (string * Z) :=
  flat_map (fun tp => map (pair (tp_topic tp)) (tp_partitions tp)) topics.


(** The local [newTopicPartitions] after the two nested loops when no push
    throws, the enlistment being read through [e]. *)
Definition collect_pairs (e : string -> Z -> bool) (pairs : list (string * Z))
    (o : list (string * list Z)) : list (string * list Z) :=
  fold_left
    (fun o tp => if negb (e tp.1 tp.2) then transactionManager.push_own tp.1 tp.2 o else o)
    pairs o.

(** The enlistment after the final loops have recorded the pairs. *)
Definition merge_enlisted (m : gmap string (gmap Z bool)) (pairs : list (string * Z))
  : gmap string (gmap Z bool) :=
  fold_left (fun m tp => <[tp.1 := <[tp.2 := true]> (default ∅ (m !! tp.1))]> m) pairs m.

(** The enlistment after the outer loop has given every named topic an
    entry, empty when it had none. *)
Definition materialised (m : gmap string (gmap Z bool)) (topics : list string)
  : gmap string (gmap Z bool) :=
  fold_left (fun m t => <[t := default ∅ (m !! t)]> m) topics m.

(** The run of [addPartitionsToTransaction] when no push throws: no call
    when nothing is new; otherwise the coordinator is resolved and the
    request is issued, and the pairs are recorded only when both have
    succeeded. *)
Definition enlistment_protocol (E : env) (cfg : config) (s : store)
    (topicData : list TopicData) : list (store * call) * outcome unit :=
  let s1 :=
    set_transactionTopicPartitions
      (materialised (transactionTopicPartitions s) (map topic topicData)) s in
  let topics :=
    transactionManager.request_topics
      (collect_pairs (enlisted (transactionTopicPartitions s)) (named_pairs topicData) []) in
  match topics with
  | [] => ([], Resolved s1 tt)
  | _ :: _ =>
      let find := cluster_findGroupCoordinator (transactionalId cfg) TRANSACTION in
      match E 0%nat find with
      | inl e => ([(s1, find)], Rejected s1 e)
      | inr b =>
          let request :=
            broker_addPartitionsToTxn b (transactionalId cfg)
              (producerId s) (producerEpoch s) topics in
          match E 1%nat request with
          | inl e => ([(s1, find); (s1, request)], Rejected s1 e)
          | inr _ =>
              ([(s1, find); (s1, request)],
               Resolved (set_transactionTopicPartitions
                           (merge_enlisted (transactionTopicPartitions s1)
                              (request_pairs topics)) s) tt)
          end
      end
  end.

(** Some pair of the delta has a topic named like a member of
    [Object.prototype]: the push of its partition throws. *)
Definition new_partition_inherited (m : gmap string (gmap Z bool))
    (topicData : list TopicData) : bool :=
  existsb (fun tp => inherited tp.1) (delta m topicData).

(** The run of [addPartitionsToTransaction] on a transactional aggregate. *)
Definition enlistment_run (E : env) (cfg : config) (s : store)
    (topicData : list TopicData) : list (store * call) * outcome unit :=
  if new_partition_inherited (transactionTopicPartitions s) topicData
  then ([],
        Rejected (set_transactionTopicPartitions
                    (transactionManager.collect_topics topicData
                       (transactionTopicPartitions s) []).1 s)
          (TypeError "newTopicPartitions[topic].push is not a function"))
  else enlistment_protocol E cfg s topicData.

(** What a run [r] of the operation [op] from the store [s] may do to the
    enlistment: every store it exposes at an await keeps the pairs enlisted
    in [s], and so does the store it ends with, unless the operation is one
    that ends with a transition to READY and the run has resolved, in READY,
    with the enlistment empty. *)
Definition cleared_only_into_READY (op : operation) (s : store)
    (r : list (store * call) * outcome unit) : Prop :=
  (forall sq, sq ∈ r.1 ->
     keeps (transactionTopicPartitions s) (transactionTopicPartitions sq.1))
  /\ (keeps (transactionTopicPartitions s) (transactionTopicPartitions (final_store r.2))
      \/ (transitions_to_READY op = true
          /\ exists s',
              r.2 = Resolved s' tt
              /\ currentState s' = STATES READY
              /\ transactionTopicPartitions s' = ∅)).

(** ** Sample configurations and environments *)

(** The transactional configuration of the scenarios: id [tx-1]. *)
Definition tx1 : config := mkConfig true (Some "tx-1") None.

(** An idempotent producer without transactions. *)
Definition plain : config := mkConfig false None None.

(** An environment in which every call resolves. *)
Definition all_resolve : env := fun _ q =>
  match q return reply q with
  | cluster_refreshMetadataIfNecessary => inr tt
  | cluster_findGroupCoordinator _ _ => inr 7
  | cluster_findControllerBroker => inr 3
  | broker_initProducerId _ _ _ => inr (mkInitResult 1000 0)
  | broker_addPartitionsToTxn _ _ _ _ _ => inr tt
  | broker_endTxn _ _ _ _ _ => inr tt
  end.

(** An environment in which the cluster answers and every broker request
    is rejected. *)
Definition brokers_reject : env := fun _ q =>
  match q return reply q with
  | cluster_refreshMetadataIfNecessary => inr tt
  | cluster_findGroupCoordinator _ _ => inr 7
  | cluster_findControllerBroker => inr 3
  | broker_initProducerId _ _ _ => inl (CollaboratorError 48)
  | broker_addPartitionsToTxn _ _ _ _ _ => inl (CollaboratorError 48)
  | broker_endTxn _ _ _ _ _ => inl (CollaboratorError 48)
  end.

(** The calls that a run has awaited, and the store it ends with. *)
Definition calls {A : Type} (r : list (store * call) * outcome A) : list call :=
  map snd r.1.
Definition after {A : Type} (r : list (store * call) * outcome A) : store :=
  final_store r.2.

(** A store in TRANSACTING with partition 0 of topic [t] enlisted. *)
Definition enlisted_t0 : store :=
  mkStore 1000 0 ∅ {[ "t" := {[ 0 := true ]} ]} (STATES TRANSACTING).

(** A store of an initialized producer in the given state. *)
Definition initialized_in (k : state_key) : store :=
  mkStore 1000 0 ∅ ∅ (STATES k).

(** ** Vocabulary of the further properties *)



(** The call with which [initProducerId] looks for its broker. *)
Definition find_broker (cfg : config) : call :=
  if transactional cfg
  then cluster_findGroupCoordinator (transactionalId cfg) TRANSACTION
  else cluster_findControllerBroker.

(** The request that [initProducerId] sends to the broker [b]. *)
Definition identity_request (cfg : config) (b : broker) : call :=
  broker_initProducerId b
    (if transactional cfg then transactionalId cfg else None)
    (transactionTimeout cfg).

(** Every call is answered, none rejected. *)
Definition resolves_all (E : env) : Prop :=
  forall n q, exists v, E n q = inr v.

(** [I] holds of every store that the process leaves behind, at each await
    and at its end, provided it holds of the store handed to it whenever it
    resumes: what other callers do while the process waits is any change
    that keeps [I]. *)
Fixpoint holds_throughout {A : Type} (I : store -> Prop) (p : proc A) : Prop :=
  match p with
  | Ret s _ => I s
  | Throw s _ => I s
  | Await s q k => I s /\ forall r s', I s' -> holds_throughout I (k r s')
  end.

(** The current state is one of the values of [STATES], and it is
    UNINITIALIZED only while no producer id has been assigned. *)
Definition state_known (s : store) : Prop :=
  (exists k, currentState s = STATES k)
  /\ (currentState s = STATES UNINITIALIZED -> producerId s = NO_PRODUCER_ID).

(** Outside any transaction: UNINITIALIZED or READY, nothing enlisted. *)
Definition never_transacting (s : store) : Prop :=
  (currentState s = STATES UNINITIALIZED \/ currentState s = STATES READY)
  /\ transactionTopicPartitions s = ∅.





(** The run of a process among other callers: while it waits for its [n]-th
    call, what the others do turns the store [s] into [others n s], and the
    process resumes from there. *)
Fixpoint run_among {A : Type} (n : nat) (E : env) (others : nat -> store -> store)
    (p : proc A) : list (store * call) * outcome A :=
  match p with
  | Ret s a => ([], Resolved s a)
  | Throw s e => ([], Rejected s e)
  | Await s q k =>
      let (tr, o) := run_among (S n) E others (k (E n q) (others n s)) in
      ((s, q) :: tr, o)
  end.







(** * Properties *)

Lemma VALID_TRANSITIONS_lookup (k : state_key) :
  VALID_TRANSITIONS !! STATES k
  = Some (match k with
          | UNINITIALIZED => [STATES READY]
          | READY => [STATES READY; STATES TRANSACTING]
          | TRANSACTING => [STATES COMMITTING; STATES ABORTING]
          | COMMITTING | ABORTING => [STATES READY]
          end).
Proof. destruct k; vm_compute; reflexivity. Qed.

(** The table of the code accepts a pair of state values exactly when the
    graph of the specification has the edge between their keys. *)
Lemma includes_legal_successor (current target : state_key) (l : list string) :
  VALID_TRANSITIONS !! STATES current = Some l ->
  includes l (STATES target) = legal_successor current target.
Proof.
  rewrite VALID_TRANSITIONS_lookup. intros [= <-].
  destruct current, target; vm_compute; reflexivity.
Qed.

Lemma transitionTo_accepts (current target : state_key) (s : store) :
  currentState s = STATES current ->
  legal_successor current target = true ->
  stateMachine.transitionTo (STATES target) s
  = Ret (set_currentState (STATES target)
           (stateMachine.on_transition
              (stateMachine.mkTransition (STATES target) (STATES current)) s)) tt.
Proof.
  intros Hs Hl. unfold stateMachine.transitionTo. rewrite Hs.
  rewrite VALID_TRANSITIONS_lookup.
  rewrite (includes_legal_successor current target _ (VALID_TRANSITIONS_lookup current)).
  rewrite Hl. reflexivity.
Qed.

Lemma transitionTo_rejects (current target : state_key) (s : store) :
  currentState s = STATES current ->
  legal_successor current target = false ->
  stateMachine.transitionTo (STATES target) s
  = Throw s (KafkaJSNonRetriableError
               ("Transaction state exception: Invalid transition "
                ++ STATES current ++ " --> " ++ STATES target)).
Proof.
  intros Hs Hl. unfold stateMachine.transitionTo. rewrite Hs.
  rewrite VALID_TRANSITIONS_lookup.
  rewrite (includes_legal_successor current target _ (VALID_TRANSITIONS_lookup current)).
  rewrite Hl. reflexivity.
Qed.

Lemma InvalidStateTransition_message (rest : string) :
  InvalidStateTransition
    (KafkaJSNonRetriableError ("Transaction state exception: " ++ rest)) = true.
Proof.
  unfold InvalidStateTransition.
  change ("Transaction state exception: " ++ rest)%string
    with (String.append "Transaction state exception: " rest).
  cbv [String.append]. cbn [String.prefix].
  repeat (destruct (ascii_dec _ _) as [_|n]; [|exfalso; apply n; reflexivity]).
  destruct rest; reflexivity.
Qed.

Lemma transitionTo_throws (current target : state_key) (s : store) :
  currentState s = STATES current ->
  legal_successor current target = false ->
  exists e,
    stateMachine.transitionTo (STATES target) s = Throw s e
    /\ InvalidStateTransition e = true.
Proof.
  intros Hs Hl. rewrite (transitionTo_rejects current target s Hs Hl).
  eexists. split; [reflexivity|].
  replace ("Transaction state exception: Invalid transition "
           ++ STATES current ++ " --> " ++ STATES target)%string
    with ("Transaction state exception: "
          ++ ("Invalid transition " ++ STATES current ++ " --> " ++ STATES target))%string
    by reflexivity.
  apply InvalidStateTransition_message.
Qed.

(** C9: from every state and for every target, [transitionTo] throws
    InvalidStateTransition and leaves the store as it was when the target is
    no legal successor in the graph of the specification; otherwise it
    returns with the current state set to the target and the side effect of
    the transition (entering READY empties the enlisted partitions) done. *)
Theorem transitionTo_follows_graph (current target : state_key) (s : store) :
  currentState s = STATES current ->
  if legal_successor current target
  then stateMachine.transitionTo (STATES target) s
       = Ret (set_currentState (STATES target)
                (if decide (target = READY)
                 then set_transactionTopicPartitions ∅ s
                 else s)) tt
  else exists e,
       stateMachine.transitionTo (STATES target) s = Throw s e
       /\ InvalidStateTransition e = true.
Proof.
  intros Hs. destruct (legal_successor current target) eqn:Hl.
  - rewrite (transitionTo_accepts current target s Hs Hl).
    destruct target; reflexivity.
  - exact (transitionTo_throws current target s Hs Hl).
Qed.

Lemma transitionTo_follows_graph_witness :
  stateMachine.transitionTo (STATES TRANSACTING)
    (set_currentState (STATES READY) initial_store)
  = Ret (set_currentState (STATES TRANSACTING)
           (set_currentState (STATES READY) initial_store)) tt.
Proof.
  exact (transitionTo_follows_graph READY TRANSACTING
           (set_currentState (STATES READY) initial_store) eq_refl).
Defined.

(** ** Lifecycle operations outside their states *)

(** C10: on a transactional aggregate, [beginTransaction] outside READY and
    [commit] and [abort] outside TRANSACTING throw at once, with the store
    as it was and before any call is awaited: the transition table itself
    rejects the transition, and no guard is involved. *)
Theorem lifecycle_rejected_by_transition_table
    (cfg : config) (current : state_key) (s : store) :
  transactional cfg = true ->
  currentState s = STATES current ->
  (current <> READY ->
   exists e, transactionManager.beginTransaction cfg s = Throw s e
             /\ InvalidStateTransition e = true)
  /\ (current <> TRANSACTING ->
      exists e, transactionManager.commit cfg s = Throw s e
                /\ InvalidStateTransition e = true)
  /\ (current <> TRANSACTING ->
      exists e, transactionManager.abort cfg s = Throw s e
                /\ InvalidStateTransition e = true).
Proof.
  intros Ht Hs.
  unfold transactionManager.beginTransaction, transactionManager.commit,
    transactionManager.abort, transactionManager.transactionalGuard, bindM.
  rewrite Ht. cbn [negb ret bind].
  split; [|split]; intros Hne.
  - destruct (transitionTo_throws current TRANSACTING s Hs) as (e & -> & He).
    + destruct current; try reflexivity. contradiction.
    + exists e. split; [reflexivity | exact He].
  - destruct (transitionTo_throws current COMMITTING s Hs) as (e & -> & He).
    + destruct current; try reflexivity. contradiction.
    + exists e. split; [reflexivity | exact He].
  - destruct (transitionTo_throws current ABORTING s Hs) as (e & -> & He).
    + destruct current; try reflexivity. contradiction.
    + exists e. split; [reflexivity | exact He].
Qed.

Lemma lifecycle_rejected_by_transition_table_witness :
  exists e,
    transactionManager.commit tx1 (initialized_in READY)
    = Throw (initialized_in READY) e
    /\ InvalidStateTransition e = true.
Proof.
  apply (proj1 (proj2 (lifecycle_rejected_by_transition_table tx1 READY
                         (initialized_in READY) eq_refl eq_refl))).
  discriminate.
Defined.

(** ** Sequence numbers *)

Lemma or_number_default (o : option Z) : or_number o 0 = default 0 o.
Proof. destruct o as [v|]; simpl; [|reflexivity]. destruct (Z.eqb_spec v 0); congruence. Qed.

Lemma getSequence_initialized (topic : string) (partition : Z) (s : store) :
  producerId s <> NO_PRODUCER_ID ->
  transactionManager.getSequence topic partition s
  = Ret (set_producerSequence
           (<[topic := <[partition := stored_sequence s topic partition]>
                         (default ∅ (producerSequence s !! topic))]>
              (producerSequence s)) s)
        (stored_sequence s topic partition).
Proof.
  intros Hinit.
  unfold transactionManager.getSequence, transactionManager.isInitialized, bindM, gets, modify.
  cbn [bind].
  destruct (Z.eqb_spec (producerId s) NO_PRODUCER_ID) as [|_]; [contradiction|].
  cbn [negb bind producerSequence set_producerSequence].
  rewrite !lookup_insert_eq. cbn [default].
  rewrite insert_insert_eq.
  unfold SEQUENCE_START. rewrite or_number_default.
  unfold stored_sequence.
  destruct s as [pid ep ps ttp cs]; cbn in *.
  destruct (ps !! topic) as [inner|]; cbn; rewrite ?lookup_insert_eq; reflexivity.
Qed.

Lemma getSequence_uninitialized (topic : string) (partition : Z) (s : store) :
  producerId s = NO_PRODUCER_ID ->
  transactionManager.getSequence topic partition s = Ret s 0.
Proof.
  intros Hinit.
  unfold transactionManager.getSequence, transactionManager.isInitialized, bindM, gets.
  cbn [bind]. rewrite Hinit. reflexivity.
Qed.

Lemma updateSequence_uninitialized (topic : string) (partition increment : Z) (s : store) :
  producerId s = NO_PRODUCER_ID ->
  transactionManager.updateSequence topic partition increment s = Ret s tt.
Proof.
  intros Hinit.
  unfold transactionManager.updateSequence, transactionManager.isInitialized, bindM, gets.
  cbn [bind]. rewrite Hinit. reflexivity.
Qed.

Lemma updateSequence_initialized (topic : string) (partition increment : Z) (s : store) :
  producerId s <> NO_PRODUCER_ID ->
  transactionManager.updateSequence topic partition increment s
  = Ret (set_producerSequence
           (<[topic := <[partition :=
                           if stored_sequence s topic partition + increment >=? INT_32_MAX_VALUE
                           then 0
                           else stored_sequence s topic partition + increment]>
                         (default ∅ (producerSequence s !! topic))]>
              (producerSequence s)) s) tt.
Proof.
  intros Hinit.
  unfold transactionManager.updateSequence, bindM.
  unfold transactionManager.isInitialized at 1. unfold gets. cbn [bind].
  destruct (Z.eqb_spec (producerId s) NO_PRODUCER_ID) as [|_]; [contradiction|].
  cbn [negb]. rewrite (getSequence_initialized topic partition s Hinit).
  cbn [bind]. unfold transactionManager.assign_sequence.
  cbn [producerSequence set_producerSequence].
  rewrite lookup_insert_eq, insert_insert_eq, insert_insert_eq.
  destruct s; reflexivity.
Qed.

(** C7: while the producer id is the sentinel -1, [getSequence] returns 0
    for every topic and partition and [updateSequence] does nothing, so
    [getSequence] still returns 0 after any number of [updateSequence]
    calls. *)
Theorem sequence_before_initialization (s : store) :
  producerId s = -1 ->
  (forall topic partition,
      transactionManager.getSequence topic partition s = Ret s 0)
  /\ (forall topic partition increment,
        transactionManager.updateSequence topic partition increment s = Ret s tt)
  /\ (forall (updates : list (string * Z * Z)) topic partition,
        (forEach updates
           (fun u => transactionManager.updateSequence u.1.1 u.1.2 u.2) ;;
         transactionManager.getSequence topic partition) s
        = Ret s 0).
Proof.
  intros Hinit. split; [|split].
  - intros. apply getSequence_uninitialized. exact Hinit.
  - intros. apply updateSequence_uninitialized. exact Hinit.
  - intros updates topic partition. unfold bindM.
    induction updates as [|u updates IH]; cbn [forEach].
    + cbn. apply getSequence_uninitialized. exact Hinit.
    + unfold bindM at 1.
      rewrite (updateSequence_uninitialized _ _ _ s Hinit). cbn [bind].
      exact IH.
Qed.

Lemma sequence_before_initialization_witness :
  (forEach [("t", 0, 5); ("t", 0, 7); ("u", 3, 1)]
     (fun u => transactionManager.updateSequence u.1.1 u.1.2 u.2) ;;
   transactionManager.getSequence "t" 0) initial_store
  = Ret initial_store 0.
Proof.
  exact (proj2 (proj2 (sequence_before_initialization initial_store eq_refl))
           [("t", 0, 5); ("t", 0, 7); ("u", 3, 1)] "t" 0).
Defined.



(** ** Commit and abort *)

(** C8: on a transactional aggregate in TRANSACTING, [commit] first moves
    to COMMITTING, then awaits the coordinator and the end-transaction
    request with result [true] in that state, and goes to READY only once
    the request has succeeded; when a call is rejected the aggregate stays
    in COMMITTING.  [abort] does the same through ABORTING with result
    [false]. *)
Theorem commit_abort_protocol (cfg : config) (s : store) (E : env) :
  transactional cfg = true ->
  currentState s = STATES TRANSACTING ->
  run E (transactionManager.commit cfg s)
  = end_transaction_protocol E cfg (set_currentState (STATES COMMITTING) s) true
  /\ run E (transactionManager.abort cfg s)
     = end_transaction_protocol E cfg (set_currentState (STATES ABORTING) s) false.
Proof.
  intros Ht Hs.
  unfold transactionManager.commit, transactionManager.abort,
    transactionManager.transactionalGuard, bindM, run, end_transaction_protocol.
  rewrite Ht. cbn [negb ret bind].
  rewrite (transitionTo_accepts TRANSACTING COMMITTING s Hs eq_refl).
  rewrite (transitionTo_accepts TRANSACTING ABORTING s Hs eq_refl).
  change (stateMachine.on_transition
            (stateMachine.mkTransition (STATES COMMITTING) (STATES TRANSACTING)) s)
    with s.
  change (stateMachine.on_transition
            (stateMachine.mkTransition (STATES ABORTING) (STATES TRANSACTING)) s)
    with s.
  cbn [bind await run_from].
  split.
  - destruct (E 0%nat _) as [e|b]; cbn [bind run_from gets]; [reflexivity|].
    destruct (E 1%nat _) as [e|[]]; cbn [bind run_from]; [reflexivity|].
    rewrite (transitionTo_accepts COMMITTING READY
               (set_currentState (STATES COMMITTING) s) eq_refl eq_refl).
    reflexivity.
  - destruct (E 0%nat _) as [e|b]; cbn [bind run_from gets]; [reflexivity|].
    destruct (E 1%nat _) as [e|[]]; cbn [bind run_from]; [reflexivity|].
    rewrite (transitionTo_accepts ABORTING READY
               (set_currentState (STATES ABORTING) s) eq_refl eq_refl).
    reflexivity.
Qed.

Lemma commit_abort_protocol_witness :
  (run brokers_reject (transactionManager.commit tx1 (initialized_in TRANSACTING))).2
  = Rejected (initialized_in COMMITTING) (CollaboratorError 48)
  /\ (run all_resolve (transactionManager.abort tx1 (initialized_in TRANSACTING))).2
     = Resolved (initialized_in READY) tt.
Proof.
  split.
  - exact (f_equal snd (proj1 (commit_abort_protocol tx1 (initialized_in TRANSACTING)
                                 brokers_reject eq_refl eq_refl))).
  - exact (f_equal snd (proj2 (commit_abort_protocol tx1 (initialized_in TRANSACTING)
                                 all_resolve eq_refl eq_refl))).
Defined.

(** ** Enlistment of partitions *)

Lemma String_eqb_decide (a b : string) :
  String.eqb a b = bool_decide (a = b).
Proof.
  destruct (String.eqb_spec a b) as [->|Hne].
  - rewrite bool_decide_eq_true_2; reflexivity.
  - rewrite bool_decide_eq_false_2; [reflexivity | exact Hne].
Qed.

Lemma get_property_push (k t : string) (p : Z) (o : list (string * list Z)) :
  get_property k (transactionManager.push_own t p o)
  = if decide (t = k)
    then Some (default [] (get_property k o) ++ [p])%list
    else get_property k o.
Proof.
  induction o as [|[t' ps] o IH]; cbn [transactionManager.push_own get_property].
  - rewrite String_eqb_decide. destruct (decide (t = k)) as [->|Hne].
    + rewrite bool_decide_eq_true_2; reflexivity.
    + rewrite bool_decide_eq_false_2; [reflexivity | exact Hne].
  - rewrite (String_eqb_decide t' t).
    destruct (decide (t' = t)) as [->|Hne].
    + rewrite bool_decide_eq_true_2 by reflexivity. cbn [get_property].
      rewrite String_eqb_decide.
      destruct (decide (t = k)) as [->|Hne'].
      * rewrite bool_decide_eq_true_2; reflexivity.
      * rewrite bool_decide_eq_false_2; [reflexivity | exact Hne'].
    + rewrite bool_decide_eq_false_2 by exact Hne. cbn [get_property].
      rewrite IH, String_eqb_decide.
      destruct (decide (t = k)) as [->|Hne'].
      * rewrite bool_decide_eq_false_2; [reflexivity | exact Hne].
      * reflexivity.
Qed.


Lemma collect_pairs_cons (e : string -> Z -> bool) (t : string) (p : Z)
    (pairs : list (string * Z)) (o : list (string * list Z)) :
  collect_pairs e ((t, p) :: pairs) o
  = collect_pairs e pairs
      (if negb (e t p) then transactionManager.push_own t p o else o).
Proof. reflexivity. Qed.


Lemma collect_pairs_ext (e e' : string -> Z -> bool) (pairs : list (string * Z))
    (o : list (string * list Z)) :
  (forall t p, e t p = e' t p) ->
  collect_pairs e pairs o = collect_pairs e' pairs o.
Proof.
  intros Hext. revert o. induction pairs as [|[t0 p0] pairs IH]; intros o.
  - reflexivity.
  - rewrite !collect_pairs_cons, Hext. apply IH.
Qed.

Lemma collect_pairs_app (e : string -> Z -> bool) (l1 l2 : list (string * Z))
    (o : list (string * list Z)) :
  collect_pairs e (l1 ++ l2) o = collect_pairs e l2 (collect_pairs e l1 o).
Proof. unfold collect_pairs. apply fold_left_app. Qed.

Lemma enlisted_materialise (m : gmap string (gmap Z bool)) (t0 t : string) (p : Z) :
  enlisted (<[t0 := default ∅ (m !! t0)]> m) t p = enlisted m t p.
Proof.
  unfold enlisted. destruct (decide (t0 = t)) as [->|Hne].
  - rewrite lookup_insert_eq. destruct (m !! t); reflexivity.
  - rewrite lookup_insert_ne by exact Hne. reflexivity.
Qed.

Lemma enlisted_materialised (m : gmap string (gmap Z bool)) (ts : list string)
    (t : string) (p : Z) :
  enlisted (materialised m ts) t p = enlisted m t p.
Proof.
  revert m. induction ts as [|t0 ts IH]; intros m; [reflexivity|].
  cbn [materialised fold_left]. fold (materialised (<[t0 := default ∅ (m !! t0)]> m) ts).
  rewrite IH. apply enlisted_materialise.
Qed.

Lemma materialised_present (m : gmap string (gmap Z bool)) (ts : list string) (t : string) :
  t ∈ ts \/ is_Some (m !! t) -> is_Some (materialised m ts !! t).
Proof.
  revert m. induction ts as [|t0 ts IH]; intros m H.
  - destruct H as [H|H]; [inversion H | exact H].
  - cbn [materialised fold_left]. fold (materialised (<[t0 := default ∅ (m !! t0)]> m) ts).
    apply IH. destruct (decide (t0 = t)) as [->|Hne].
    + right. rewrite lookup_insert_eq. eauto.
    + destruct H as [H|H].
      * apply elem_of_cons in H as [->|H]; [congruence | left; exact H].
      * right. rewrite lookup_insert_ne by exact Hne. exact H.
Qed.


Lemma collect_partitions_run (e : string -> Z -> bool) (inner : gmap Z bool)
    (t : string) (ps : list Z) (o : list (string * list Z)) :
  (forall p, is_true (inner !! p) = e t p) ->
  transactionManager.collect_partitions inner t ps o
  = if inherited t && existsb (fun p => negb (e t p)) ps
    then inl (TypeError "newTopicPartitions[topic].push is not a function")
    else inr (collect_pairs e (map (pair t) ps) o).
Proof.
  intros He. revert o. induction ps as [|p ps IH]; intros o.
  - cbn. rewrite andb_false_r. reflexivity.
  - cbn [transactionManager.collect_partitions existsb map].
    rewrite collect_pairs_cons, He. destruct (e t p); cbn [negb orb].
    + apply IH.
    + unfold transactionManager.push_partition.
      destruct (inherited t); cbn [andb]; [reflexivity|].
      rewrite IH. reflexivity.
Qed.

Lemma inherited_new_partition (e : string -> Z -> bool) (t : string) (ps : list Z) :
  existsb (fun tp => inherited tp.1)
    (filter (fun tp => e tp.1 tp.2 = false) (map (pair t) ps))
  = inherited t && existsb (fun p => negb (e t p)) ps.
Proof.
  induction ps as [|p ps IH]; cbn [map existsb].
  - rewrite andb_false_r. reflexivity.
  - rewrite filter_cons. cbn [fst snd]. destruct (e t p); cbn [negb orb].
    + rewrite decide_False by discriminate. exact IH.
    + rewrite decide_True by reflexivity. cbn [existsb fst]. rewrite IH.
      destruct (inherited t); reflexivity.
Qed.

Lemma new_partition_inherited_cons (m : gmap string (gmap Z bool)) (td : TopicData)
    (topicData : list TopicData) :
  new_partition_inherited m (td :: topicData)
  = (inherited (topic td)
     && existsb (fun p => negb (enlisted m (topic td) p)) (partitions td))
    || new_partition_inherited m topicData.
Proof.
  unfold new_partition_inherited, delta. cbn [named_pairs flat_map].
  rewrite filter_app, existsb_app. f_equal.
  apply (inherited_new_partition (enlisted m)).
Qed.

Lemma new_partition_inherited_ext (m m' : gmap string (gmap Z bool))
    (topicData : list TopicData) :
  (forall t p, enlisted m t p = enlisted m' t p) ->
  new_partition_inherited m topicData = new_partition_inherited m' topicData.
Proof.
  intros Hext. unfold new_partition_inherited, delta.
  induction (named_pairs topicData) as [|[t p] l IH]; [reflexivity|].
  rewrite !filter_cons. cbn [fst snd]. rewrite Hext.
  destruct (decide (enlisted m' t p = false)); cbn [existsb]; rewrite IH; reflexivity.
Qed.

Lemma enlisted_default (m : gmap string (gmap Z bool)) (t : string) (p : Z) :
  is_true (default ∅ (m !! t) !! p) = enlisted m t p.
Proof. unfold enlisted. destruct (m !! t); reflexivity. Qed.

(** The outer loop leaves the enlisted pairs as they were, whether or not it
    throws. *)
Lemma collect_topics_enlisted (topicData : list TopicData)
    (m : gmap string (gmap Z bool)) (o : list (string * list Z)) (t : string) (p : Z) :
  enlisted (transactionManager.collect_topics topicData m o).1 t p = enlisted m t p.
Proof.
  revert m o. induction topicData as [|td tds IH]; intros m o; [reflexivity|].
  cbn [transactionManager.collect_topics].
  destruct (transactionManager.collect_partitions _ _ _ _) as [e|o'].
  - cbn [fst]. apply enlisted_materialise.
  - rewrite IH. apply enlisted_materialise.
Qed.

Lemma collect_topics_run (topicData : list TopicData)
    (m : gmap string (gmap Z bool)) (o : list (string * list Z)) :
  transactionManager.collect_topics topicData m o
  = if new_partition_inherited m topicData
    then ((transactionManager.collect_topics topicData m o).1,
          inl (TypeError "newTopicPartitions[topic].push is not a function"))
    else (materialised m (map topic topicData),
          inr (collect_pairs (enlisted m) (named_pairs topicData) o)).
Proof.
  revert m o. induction topicData as [|td tds IH]; intros m o; [reflexivity|].
  rewrite new_partition_inherited_cons.
  cbn [transactionManager.collect_topics].
  rewrite (collect_partitions_run (enlisted m) _ _ _ _ (enlisted_default m (topic td))).
  destruct (inherited (topic td)
            && existsb (fun p => negb (enlisted m (topic td) p)) (partitions td));
    cbn [orb fst]; [reflexivity|].
  rewrite IH.
  rewrite (new_partition_inherited_ext (<[topic td := default ∅ (m !! topic td)]> m) m)
    by (intros t p; apply enlisted_materialise).
  destruct (new_partition_inherited m tds); [reflexivity|].
  cbn [map named_pairs flat_map]. fold (named_pairs tds).
  rewrite collect_pairs_app. f_equal. f_equal.
  apply collect_pairs_ext. intros t p. apply enlisted_materialise.
Qed.


(** Object.keys and property lookup *)

Lemma elem_of_insert_index (x : Z * string) (n : Z) (k : string) (l : list (Z * string)) :
  x ∈ insert_index n k l <-> x = (n, k) \/ x ∈ l.
Proof.
  induction l as [|[m k'] l IH]; cbn [insert_index].
  - rewrite list_elem_of_singleton. split; [auto|]. intros [H|H]; [exact H | inversion H].
  - destruct (n <? m).
    + apply elem_of_cons.
    + rewrite !elem_of_cons, IH. tauto.
Qed.

Lemma elem_of_index_keys (n : Z) (k : string) (ks : list string) :
  (n, k) ∈ index_keys ks <-> k ∈ ks /\ array_index k = Some n.
Proof.
  induction ks as [|k0 ks IH]; cbn [index_keys].
  - split; [intros H; inversion H | intros [H _]; inversion H].
  - destruct (array_index k0) as [n0|] eqn:Hk0.
    + rewrite elem_of_insert_index, IH, elem_of_cons. split.
      * intros [[= -> ->]|[H1 H2]]; [split; [left; reflexivity | exact Hk0] | tauto].
      * intros [[->|H1] H2]; [left; congruence | right; tauto].
    + rewrite IH, elem_of_cons. split; [tauto|].
      intros [[->|H1] H2]; [congruence | tauto].
Qed.

Lemma elem_of_Object_keys {V : Type} (k : string) (o : list (string * V)) :
  k ∈ Object_keys o <-> k ∈ map fst o.
Proof.
  unfold Object_keys. rewrite elem_of_app, list_elem_of_filter. split.
  - intros [H|[_ H]]; [|exact H].
    apply list_elem_of_In, in_map_iff in H as [[n k'] [Hk H]]. cbn in Hk. subst k'.
    apply list_elem_of_In, elem_of_index_keys in H. tauto.
  - intros H. destruct (array_index k) as [n|] eqn:Hk.
    + left. apply list_elem_of_In, in_map_iff. exists (n, k). split; [reflexivity|].
      apply list_elem_of_In, elem_of_index_keys. auto.
    + right. auto.
Qed.

Lemma get_property_is_Some {V : Type} (k : string) (o : list (string * V)) :
  is_Some (get_property k o) <-> k ∈ map fst o.
Proof.
  induction o as [|[k' v] o IH]; cbn [get_property map fst].
  - split; [intros [x H]; discriminate | intros H; inversion H].
  - rewrite elem_of_cons, String_eqb_decide.
    destruct (decide (k' = k)) as [->|Hne].
    + rewrite bool_decide_eq_true_2 by reflexivity. split; [auto | eauto].
    + rewrite bool_decide_eq_false_2 by exact Hne. rewrite IH.
      split; [auto|]. intros [->|H]; [congruence | exact H].
Qed.


Lemma request_topics_topic (o : list (string * list Z)) (tp : topic_partitions) :
  tp ∈ transactionManager.request_topics o -> tp_topic tp ∈ map fst o.
Proof.
  unfold transactionManager.request_topics. intros H.
  apply list_elem_of_In, in_map_iff in H as (k & <- & Hk). cbn [tp_topic].
  apply elem_of_Object_keys, list_elem_of_In. exact Hk.
Qed.


Lemma collect_pairs_keys (e : string -> Z -> bool) (pairs : list (string * Z))
    (o : list (string * list Z)) (k : string) :
  k ∈ map fst (collect_pairs e pairs o) -> k ∈ map fst o \/ k ∈ map fst pairs.
Proof.
  revert o. induction pairs as [|[t0 p0] pairs IH]; intros o; [cbn; auto|].
  rewrite collect_pairs_cons. intros H. apply IH in H. cbn [map fst].
  rewrite elem_of_cons. destruct H as [H|H]; [|auto].
  destruct (negb (e t0 p0)); [|auto].
  apply get_property_is_Some in H. rewrite get_property_push in H.
  destruct (decide (t0 = k)) as [->|Hne]; [auto|].
  left. apply get_property_is_Some. exact H.
Qed.





(** Recording the enlistment *)

Lemma set_transactionTopicPartitions_same (s : store) :
  set_transactionTopicPartitions (transactionTopicPartitions s) s = s.
Proof. destruct s; reflexivity. Qed.

Lemma merge_enlisted_app (m : gmap string (gmap Z bool)) (l1 l2 : list (string * Z)) :
  merge_enlisted m (l1 ++ l2) = merge_enlisted (merge_enlisted m l1) l2.
Proof. unfold merge_enlisted. apply fold_left_app. Qed.

Lemma merge_enlisted_present (m : gmap string (gmap Z bool)) (pairs : list (string * Z))
    (t : string) :
  is_Some (m !! t) -> is_Some (merge_enlisted m pairs !! t).
Proof.
  revert m. induction pairs as [|[t0 p0] pairs IH]; intros m H; [exact H|].
  cbn [merge_enlisted fold_left fst snd]. apply IH.
  destruct (decide (t0 = t)) as [->|Hne].
  - rewrite lookup_insert_eq. eauto.
  - rewrite lookup_insert_ne by exact Hne. exact H.
Qed.

Lemma enlisted_merge_enlisted (m : gmap string (gmap Z bool)) (pairs : list (string * Z))
    (t : string) (p : Z) :
  enlisted (merge_enlisted m pairs) t p
  = enlisted m t p || bool_decide ((t, p) ∈ pairs).
Proof.
  revert m. induction pairs as [|[t0 p0] pairs IH]; intros m.
  - cbn. rewrite bool_decide_eq_false_2; [rewrite orb_false_r; reflexivity|].
    intros H. inversion H.
  - cbn [merge_enlisted fold_left fst snd].
    fold (merge_enlisted (<[t0 := <[p0 := true]> (default ∅ (m !! t0))]> m) pairs).
    rewrite IH. destruct (decide ((t, p) = (t0, p0))) as [[= -> ->]|Hne].
    + rewrite (bool_decide_eq_true_2 ((t0, p0) ∈ (t0, p0) :: pairs)) by left.
      rewrite orb_true_r. unfold enlisted. rewrite lookup_insert_eq. cbn.
      rewrite lookup_insert_eq. reflexivity.
    + assert (enlisted (<[t0 := <[p0 := true]> (default ∅ (m !! t0))]> m) t p
              = enlisted m t p) as ->.
      { unfold enlisted. destruct (decide (t0 = t)) as [->|Ht].
        - rewrite lookup_insert_eq. cbn.
          rewrite lookup_insert_ne by congruence.
          destruct (m !! t); reflexivity.
        - rewrite lookup_insert_ne by exact Ht. reflexivity. }
      f_equal. apply bool_decide_ext. rewrite elem_of_cons. tauto.
Qed.

Lemma record_partitions (t : string) (ps : list Z) (s : store) :
  is_Some (transactionTopicPartitions s !! t) ->
  forEach ps (fun partition => transactionManager.assign_enlisted t partition) s
  = Ret (set_transactionTopicPartitions
           (merge_enlisted (transactionTopicPartitions s) (map (pair t) ps)) s) tt.
Proof.
  revert s. induction ps as [|p ps IH]; intros s [inner Hinner].
  - cbn. rewrite set_transactionTopicPartitions_same. reflexivity.
  - cbn [forEach]. unfold bindM at 1.
    unfold transactionManager.assign_enlisted at 1. rewrite Hinner.
    cbn [bind]. rewrite IH.
    + cbn [transactionTopicPartitions set_transactionTopicPartitions map
           merge_enlisted fold_left fst snd].
      rewrite Hinner. reflexivity.
    + cbn [transactionTopicPartitions set_transactionTopicPartitions].
      rewrite lookup_insert_eq. eauto.
Qed.

Lemma record_topics (topics : list topic_partitions) (s : store) :
  (forall tp, tp ∈ topics -> is_Some (transactionTopicPartitions s !! tp_topic tp)) ->
  forEach topics
    (fun tp => forEach (tp_partitions tp)
                 (fun partition => transactionManager.assign_enlisted (tp_topic tp) partition)) s
  = Ret (set_transactionTopicPartitions
           (merge_enlisted (transactionTopicPartitions s) (request_pairs topics)) s) tt.
Proof.
  revert s. induction topics as [|tp topics IH]; intros s H.
  - cbn. rewrite set_transactionTopicPartitions_same. reflexivity.
  - cbn [forEach]. unfold bindM at 1.
    rewrite (record_partitions (tp_topic tp) (tp_partitions tp) s) by (apply H; left).
    cbn [bind]. rewrite IH.
    + cbn [transactionTopicPartitions set_transactionTopicPartitions request_pairs flat_map].
      fold (request_pairs topics). rewrite merge_enlisted_app. reflexivity.
    + intros tp' Htp'. cbn [transactionTopicPartitions set_transactionTopicPartitions].
      apply merge_enlisted_present. apply H. right. exact Htp'.
Qed.

Lemma named_pairs_topic (topicData : list TopicData) (t : string) :
  t ∈ map fst (named_pairs topicData) -> t ∈ map topic topicData.
Proof.
  intros H. apply list_elem_of_In, in_map_iff in H as ([t' p] & Ht & H).
  cbn in Ht. subst t'. unfold named_pairs in H.
  apply in_flat_map in H as (td & Htd & H).
  apply in_map_iff in H as (p' & [= <- <-] & _).
  apply list_elem_of_In, in_map_iff. eauto.
Qed.

Lemma requested_topics_present (m : gmap string (gmap Z bool))
    (topicData : list TopicData) (tp : topic_partitions) :
  tp ∈ transactionManager.request_topics
         (collect_pairs (enlisted m) (named_pairs topicData) []) ->
  is_Some (materialised m (map topic topicData) !! tp_topic tp).
Proof.
  intros H. apply materialised_present. left.
  apply request_topics_topic, collect_pairs_keys in H as [H|H]; [inversion H|].
  apply named_pairs_topic. exact H.
Qed.

Lemma addPartitionsToTransaction_run (E : env) (cfg : config) (s : store)
    (topicData : list TopicData) :
  transactional cfg = true ->
  run E (transactionManager.addPartitionsToTransaction cfg topicData s)
  = enlistment_run E cfg s topicData.
Proof.
  intros Ht.
  unfold transactionManager.addPartitionsToTransaction,
    transactionManager.transactionalGuard, bindM, run, enlistment_run,
    enlistment_protocol.
  rewrite Ht. cbn [negb ret bind gets modify]. rewrite collect_topics_run.
  destruct (new_partition_inherited _ _); cbn [fst snd].
  { cbn [throw run_from]. reflexivity. }
  pose proof (requested_topics_present (transactionTopicPartitions s) topicData) as Hpresent.
  destruct (transactionManager.request_topics _) as [|tp topics] eqn:Htopics.
  - cbn. reflexivity.
  - cbn [List.length Nat.eqb bind await run_from].
    destruct (E 0%nat _) as [e|b];
      cbn [bind await run_from gets producerId producerEpoch
           set_transactionTopicPartitions]; [reflexivity|].
    destruct (E 1%nat _) as [e|[]]; cbn [bind run_from]; [reflexivity|].
    rewrite record_topics by exact Hpresent.
    cbn [run_from]. reflexivity.
Qed.





Lemma resolved_store (E : env) (cfg : config) (s s' : store) (topicData : list TopicData) :
  (enlistment_protocol E cfg s topicData).2 = Resolved s' tt ->
  s' = set_transactionTopicPartitions
         (merge_enlisted
            (materialised (transactionTopicPartitions s) (map topic topicData))
            (request_pairs
               (transactionManager.request_topics
                  (collect_pairs (enlisted (transactionTopicPartitions s))
                     (named_pairs topicData) [])))) s.
Proof.
  unfold enlistment_protocol.
  destruct (transactionManager.request_topics _) as [|tp topics].
  - cbn. intros [= <-]. reflexivity.
  - destruct (E 0%nat _) as [e|b]; [discriminate|].
    destruct (E 1%nat _) as [e|[]]; [discriminate|].
    cbn. intros [= <-]. reflexivity.
Qed.

Lemma rejected_store (E : env) (cfg : config) (s s' : store) (e : error)
    (topicData : list TopicData) :
  (enlistment_protocol E cfg s topicData).2 = Rejected s' e ->
  s' = set_transactionTopicPartitions
         (materialised (transactionTopicPartitions s) (map topic topicData)) s.
Proof.
  unfold enlistment_protocol.
  destruct (transactionManager.request_topics _) as [|tp topics]; [discriminate|].
  destruct (E 0%nat _) as [e0|b]; [cbn; intros [= <- _]; reflexivity|].
  destruct (E 1%nat _) as [e1|[]]; [cbn; intros [= <- _]; reflexivity | discriminate].
Qed.

Lemma suspended_store (E : env) (cfg : config) (s : store) (topicData : list TopicData)
    (sq : store * call) :
  sq ∈ (enlistment_protocol E cfg s topicData).1 ->
  sq.1 = set_transactionTopicPartitions
           (materialised (transactionTopicPartitions s) (map topic topicData)) s.
Proof.
  unfold enlistment_protocol.
  destruct (transactionManager.request_topics _) as [|tp topics];
    [intros H; inversion H|].
  destruct (E 0%nat _) as [e0|b]; [|destruct (E 1%nat _) as [e1|[]]]; cbn [fst];
    intros H; repeat (apply elem_of_cons in H as [->|H]; [reflexivity|]); inversion H.
Qed.







Lemma enlistment_run_throws (E : env) (cfg : config) (s : store)
    (topicData : list TopicData) :
  new_partition_inherited (transactionTopicPartitions s) topicData = true ->
  enlistment_run E cfg s topicData
  = ([], Rejected (set_transactionTopicPartitions
                     (transactionManager.collect_topics topicData
                        (transactionTopicPartitions s) []).1 s)
           (TypeError "newTopicPartitions[topic].push is not a function")).
Proof. intros H. unfold enlistment_run. rewrite H. reflexivity. Qed.

Lemma enlistment_run_proceeds (E : env) (cfg : config) (s : store)
    (topicData : list TopicData) :
  new_partition_inherited (transactionTopicPartitions s) topicData = false ->
  enlistment_run E cfg s topicData = enlistment_protocol E cfg s topicData.
Proof. intros H. unfold enlistment_run. rewrite H. reflexivity. Qed.


(** C4: [addPartitionsToTransaction] misses the topics named like a member of
    [Object.prototype]. On a transactional aggregate in TRANSACTING with
    nothing enlisted, the call that names partition 0 of the topic
    [constructor] has the delta [(constructor, 0)], yet whatever the
    collaborators would answer it awaits no call, issues no request and is
    rejected with the TypeError of the push; no pair is enlisted. *)
Theorem addPartitionsToTransaction_throws_at_inherited_topic :
  let topicData := [mkTopicData "constructor" [0]] in
  let s := initialized_in TRANSACTING in
  transactional tx1 = true
  /\ currentState s = STATES TRANSACTING
  /\ delta (transactionTopicPartitions s) topicData = [("constructor", 0)]
  /\ forall E : env,
      exists s',
        run E (transactionManager.addPartitionsToTransaction tx1 topicData s)
        = ([], Rejected s'
                 (TypeError "newTopicPartitions[topic].push is not a function"))
        /\ forall t p, enlisted (transactionTopicPartitions s') t p = false.
Proof.
  cbv zeta. split; [reflexivity|]. split; [reflexivity|].
  split; [vm_compute; reflexivity|].
  intros E. rewrite (addPartitionsToTransaction_run E tx1 _ _ eq_refl).
  rewrite enlistment_run_throws by (vm_compute; reflexivity).
  eexists. split; [reflexivity|]. intros t p.
  cbn [transactionTopicPartitions set_transactionTopicPartitions].
  rewrite collect_topics_enlisted. reflexivity.
Qed.




(** ** Clearing the enlistment *)

Lemma keeps_refl (m : gmap string (gmap Z bool)) : keeps m m.
Proof. intros t p H. exact H. Qed.

(** Closes the goals about a run that ends with the store it started from. *)
Ltac stores_kept :=
  split;
  [ intros sq H;
    repeat (apply elem_of_cons in H as [->|H]; [apply keeps_refl|]);
    inversion H
  | left; apply keeps_refl ].

(** ** The transition table *)

Lemma transitionTo_result (target : string) (s : store) :
  (exists e, stateMachine.transitionTo target s = Throw s e)
  \/ stateMachine.transitionTo target s
     = Ret (set_currentState target
              (stateMachine.on_transition
                 (stateMachine.mkTransition target (currentState s)) s)) tt.
Proof.
  unfold stateMachine.transitionTo.
  destruct (VALID_TRANSITIONS !! currentState s) as [l|]; [|eauto].
  destruct (includes l target); cbn [negb]; [right; reflexivity | eauto].
Qed.

Lemma on_transition_enlisted (target from : string) (s : store) :
  transactionTopicPartitions
    (stateMachine.on_transition (stateMachine.mkTransition target from) s)
  = if decide (target = STATES READY) then ∅ else transactionTopicPartitions s.
Proof.
  unfold stateMachine.on_transition. cbn [stateMachine.to].
  rewrite String_eqb_decide.
  destruct (decide (target = STATES READY)) as [H|H].
  - rewrite bool_decide_eq_true_2 by exact H. reflexivity.
  - rewrite bool_decide_eq_false_2 by exact H. reflexivity.
Qed.

Lemma transitionTo_enlisted (target : string) (s s' : store) :
  stateMachine.transitionTo target s = Ret s' tt ->
  transactionTopicPartitions s'
  = (if decide (target = STATES READY) then ∅ else transactionTopicPartitions s)
  /\ currentState s' = target.
Proof.
  destruct (transitionTo_result target s) as [[e ->]| ->]; [discriminate|].
  intros [= <-]. split; [|reflexivity].
  cbn [transactionTopicPartitions set_currentState]. apply on_transition_enlisted.
Qed.

Lemma initProducerId_cleared (cfg : config) (s : store) (E : env) :
  cleared_only_into_READY call_initProducerId s
    (run E (transactionManager.initProducerId cfg s)).
Proof.
  unfold transactionManager.initProducerId, bindM, run.
  cbn [bind await run_from].
  destruct (E 0%nat _) as [e|[]]; cbn [bind run_from]; [stores_kept|].
  destruct (transactional cfg); cbn [bind await run_from];
    (destruct (E 1%nat _) as [e|b]; cbn [bind run_from]; [stores_kept|]);
    (destruct (E 2%nat _) as [e|result]; cbn [bind run_from]; [stores_kept|]);
    (destruct (transitionTo_result (STATES READY) s) as [[e ->]| ->];
     cbn [bind run_from modify]; [stores_kept|]);
    (split;
     [ intros sq H;
       repeat (apply elem_of_cons in H as [->|H]; [apply keeps_refl|]);
       inversion H
     | right; split; [reflexivity|]; eexists; split; [reflexivity|];
       split; reflexivity ]).
Qed.

Lemma end_transaction_cleared (cfg : config) (s : store) (E : env) :
  cleared_only_into_READY call_commit s (run E (transactionManager.commit cfg s))
  /\ cleared_only_into_READY call_abort s (run E (transactionManager.abort cfg s)).
Proof.
  unfold transactionManager.commit, transactionManager.abort,
    transactionManager.transactionalGuard, bindM, run.
  destruct (transactional cfg); cbn [negb ret throw bind run_from];
    [|split; stores_kept].
  change (STATES ABORTING) with (STATES COMMITTING).
  destruct (transitionTo_result (STATES COMMITTING) s) as [[e ->]| ->];
    cbn [bind run_from]; [split; stores_kept|].
  change (stateMachine.on_transition
            (stateMachine.mkTransition (STATES COMMITTING) (currentState s)) s)
    with s.
  cbn [bind await run_from].
  destruct (E 0%nat _) as [e|b]; cbn [bind run_from gets]; [split; stores_kept|].
  split.
  - destruct (E 1%nat _) as [e|[]]; cbn [bind run_from]; [stores_kept|].
    rewrite (transitionTo_accepts COMMITTING READY
               (set_currentState (STATES COMMITTING) s) eq_refl eq_refl).
    cbn [run_from].
    split;
     [ intros sq H;
       repeat (apply elem_of_cons in H as [->|H]; [apply keeps_refl|]);
       inversion H
     | right; split; [reflexivity|]; eexists; split; [reflexivity|];
       split; reflexivity ].
  - destruct (E 1%nat _) as [e|[]]; cbn [bind run_from]; [stores_kept|].
    rewrite (transitionTo_accepts COMMITTING READY
               (set_currentState (STATES COMMITTING) s) eq_refl eq_refl).
    cbn [run_from].
    split;
     [ intros sq H;
       repeat (apply elem_of_cons in H as [->|H]; [apply keeps_refl|]);
       inversion H
     | right; split; [reflexivity|]; eexists; split; [reflexivity|];
       split; reflexivity ].
Qed.

Lemma beginTransaction_cleared (cfg : config) (s : store) (E : env) :
  cleared_only_into_READY call_beginTransaction s
    (run E (transactionManager.beginTransaction cfg s)).
Proof.
  unfold transactionManager.beginTransaction,
    transactionManager.transactionalGuard, bindM, run.
  destruct (transactional cfg); cbn [negb ret throw bind run_from]; [|stores_kept].
  destruct (transitionTo_result (STATES TRANSACTING) s) as [[e ->]| ->];
    cbn [run_from]; stores_kept.
Qed.

Lemma getSequence_cleared (topic : string) (partition : Z) (s : store) (E : env) :
  cleared_only_into_READY (call_getSequence topic partition) s
    (run E ((_ <- transactionManager.getSequence topic partition ;; ret tt) s)).
Proof.
  unfold bindM.
  destruct (decide (producerId s = NO_PRODUCER_ID)) as [Hinit|Hinit].
  - rewrite (getSequence_uninitialized topic partition s Hinit). cbn. stores_kept.
  - rewrite (getSequence_initialized topic partition s Hinit). cbn. stores_kept.
Qed.

Lemma updateSequence_cleared (topic : string) (partition increment : Z)
    (s : store) (E : env) :
  cleared_only_into_READY (call_updateSequence topic partition increment) s
    (run E (transactionManager.updateSequence topic partition increment s)).
Proof.
  destruct (decide (producerId s = NO_PRODUCER_ID)) as [Hinit|Hinit].
  - rewrite (updateSequence_uninitialized topic partition increment s Hinit).
    cbn. stores_kept.
  - rewrite (updateSequence_initialized topic partition increment s Hinit).
    cbn. stores_kept.
Qed.

Lemma addPartitionsToTransaction_cleared (cfg : config) (topicData : list TopicData)
    (s : store) (E : env) :
  cleared_only_into_READY (call_addPartitionsToTransaction topicData) s
    (run E (transactionManager.addPartitionsToTransaction cfg topicData s)).
Proof.
  destruct (transactional cfg) eqn:Ht.
  - rewrite (addPartitionsToTransaction_run E cfg s topicData Ht).
    destruct (new_partition_inherited (transactionTopicPartitions s) topicData) eqn:Hn.
    { rewrite enlistment_run_throws by exact Hn. split.
      - intros sq Hsq. inversion Hsq.
      - left. intros t p He.
        cbn [snd final_store transactionTopicPartitions set_transactionTopicPartitions].
        rewrite collect_topics_enlisted. exact He. }
    rewrite enlistment_run_proceeds by exact Hn. split.
    + intros sq Hsq t p. rewrite (suspended_store E cfg s topicData sq Hsq).
      cbn [transactionTopicPartitions set_transactionTopicPartitions].
      rewrite enlisted_materialised. auto.
    + left. intros t p He.
      destruct ((enlistment_protocol E cfg s topicData).2) as [s' []|s' e] eqn:Hr.
      * apply resolved_store in Hr. subst s'.
        cbn [final_store transactionTopicPartitions set_transactionTopicPartitions].
        rewrite enlisted_merge_enlisted, enlisted_materialised, He. reflexivity.
      * apply rejected_store in Hr. subst s'.
        cbn [final_store transactionTopicPartitions set_transactionTopicPartitions].
        rewrite enlisted_materialised. exact He.
  - unfold transactionManager.addPartitionsToTransaction,
      transactionManager.transactionalGuard, bindM, run.
    rewrite Ht. cbn [negb throw bind run_from]. stores_kept.
Qed.


(** C5: a transition that succeeds leaves the enlisted partitions empty when
    its target is READY, whatever the state it leaves, and leaves them as
    they were for any other target; and no run of an operation loses an
    enlisted pair except by resolving through its transition to READY. *)
Theorem enlistment_cleared_exactly_on_READY :
  (forall target s s',
      stateMachine.transitionTo target s = Ret s' tt ->
      transactionTopicPartitions s'
      = if decide (target = STATES READY) then ∅ else transactionTopicPartitions s)
  /\ (forall cfg op s E,
        cleared_only_into_READY op s
          (run E (invoke (transactionManager.guarded cfg) op s))).
Proof.
  split.
  - intros target s s' H. apply (transitionTo_enlisted target s s' H).
  - intros cfg op s E. destruct op; cbn [invoke].
    + apply initProducerId_cleared.
    + apply beginTransaction_cleared.
    + apply getSequence_cleared.
    + apply updateSequence_cleared.
    + apply addPartitionsToTransaction_cleared.
    + apply (end_transaction_cleared cfg s E).
    + apply (end_transaction_cleared cfg s E).
Qed.

Lemma enlistment_cleared_exactly_on_READY_witness :
  transactionTopicPartitions
    (set_currentState (STATES READY) (set_transactionTopicPartitions ∅ enlisted_t0))
  = ∅.
Proof.
  exact (proj1 enlistment_cleared_exactly_on_READY (STATES READY)
           (set_currentState (STATES COMMITTING) enlisted_t0)
           (set_currentState (STATES READY) (set_transactionTopicPartitions ∅ enlisted_t0))
           eq_refl).
Defined.

(** ** The guards *)

(** [guard] assigns the property [method] and no other. *)
Lemma guard_keeps_operations (o : object) (name : string) (states : list string) :
  prop_initProducerId (stateMachine.guard o name states) = prop_initProducerId o
  /\ prop_beginTransaction (stateMachine.guard o name states) = prop_beginTransaction o
  /\ prop_getSequence (stateMachine.guard o name states) = prop_getSequence o
  /\ prop_updateSequence (stateMachine.guard o name states) = prop_updateSequence o
  /\ prop_addPartitionsToTransaction (stateMachine.guard o name states)
     = prop_addPartitionsToTransaction o
  /\ prop_commit (stateMachine.guard o name states) = prop_commit o
  /\ prop_abort (stateMachine.guard o name states) = prop_abort o.
Proof. repeat split. Qed.

(** After the registrations the object still holds the operations of the
    literal. *)
Lemma guarded_operations (cfg : config) (op : operation) :
  invoke (transactionManager.guarded cfg) op
  = invoke (transactionManager.literal cfg) op.
Proof. destruct op; reflexivity. Qed.

(** C1: the object that the factory returns runs [updateSequence] and
    [getSequence] in READY, a state outside their eligible set: on an
    initialized aggregate [updateSequence] resolves and records the sequence
    number, and [getSequence] resolves and creates the entry it reads. *)
Theorem sequence_operations_run_in_READY :
  createTransactionManager tx1 = inr (transactionManager.guarded tx1)
  /\ currentState (initialized_in READY) = STATES READY
  /\ (READY ∉ eligible_states (call_updateSequence "t" 0 5))
  /\ (READY ∉ eligible_states (call_getSequence "t" 0))
  /\ (exists s',
        run all_resolve
          (invoke (transactionManager.guarded tx1) (call_updateSequence "t" 0 5)
             (initialized_in READY))
        = ([], Resolved s' tt)
        /\ producerSequence (initialized_in READY) !! "t" = None
        /\ producerSequence s' !! "t" ≫= (.!! 0) = Some 5)
  /\ (exists s',
        run all_resolve
          (invoke (transactionManager.guarded tx1) (call_getSequence "t" 0)
             (initialized_in READY))
        = ([], Resolved s' tt)
        /\ producerSequence s' !! "t" ≫= (.!! 0) = Some 0).
Proof.
  split; [reflexivity|]. split; [reflexivity|].
  split; [intros H; apply list_elem_of_singleton in H; discriminate|].
  split; [intros H; apply list_elem_of_singleton in H; discriminate|].
  split; eexists; (split; [vm_compute; reflexivity|]); repeat split;
    vm_compute; reflexivity.
Qed.

(** ** The states *)

(** C2: the state values under the keys COMMITTING and ABORTING are one and
    the same string, so the five keys hold four states, and a rejected
    [commit] and a rejected [abort] leave the aggregate in the same state. *)
Theorem ABORTING_is_COMMITTING :
  STATES ABORTING = STATES COMMITTING
  /\ ~ NoDup (map STATES state_keys)
  /\ currentState
       (final_store
          (run brokers_reject
             (transactionManager.commit tx1 (initialized_in TRANSACTING))).2)
     = currentState
         (final_store
            (run brokers_reject
               (transactionManager.abort tx1 (initialized_in TRANSACTING))).2).
Proof.
  split; [reflexivity|]. split; [|reflexivity].
  intros H. cbn in H.
  apply NoDup_cons in H as [_ H]. apply NoDup_cons in H as [_ H].
  apply NoDup_cons in H as [_ H]. apply NoDup_cons in H as [H _].
  apply H. left.
Qed.

(** ** The property [method] *)

(** What the registrations do build is a chain of wrappers under the
    property [method]; calling it throws in every state, since the states
    that the outer wrappers let through are stopped by the wrapper of
    [beginTransaction]. *)
Lemma method_property_throws (cfg : config) (s : store) :
  exists f e,
    prop_method (transactionManager.guarded cfg) = Some f
    /\ f s = Throw s e
    /\ InvalidStateTransition e = true.
Proof.
  eexists. cbn [transactionManager.guarded stateMachine.guard prop_method].
  destruct (decide (currentState s = STATES TRANSACTING)) as [Hs|Hs].
  - eexists. split; [reflexivity|]. cbn beta. rewrite Hs.
    split; [vm_compute; reflexivity|]. vm_compute. reflexivity.
  - eexists. split; [reflexivity|]. cbn beta. unfold includes at 1.
    rewrite bool_decide_eq_false_2
      by (intros H; apply list_elem_of_singleton in H; contradiction).
    cbn [negb]. split; [reflexivity|].
    replace ("Transaction state exception: Cannot call " ++ dquote ++ "abort"
             ++ dquote ++ " in state " ++ dquote ++ currentState s ++ dquote)%string
      with ("Transaction state exception: "
            ++ ("Cannot call " ++ dquote ++ "abort"
                ++ dquote ++ " in state " ++ dquote ++ currentState s ++ dquote))%string
      by reflexivity.
    apply InvalidStateTransition_message.
Qed.

(** ** Scenarios *)

(** Scenario A: [beginTransaction] on an aggregate that is not
    transactional. *)
Example scenario_A :
  exists e,
    run all_resolve (transactionManager.beginTransaction plain initial_store)
    = ([], Rejected initial_store e)
    /\ TransactionalOperationUnavailable e = true.
Proof. eexists. split; reflexivity. Qed.

(** Scenario B: initialization, a transaction with one enlisted partition,
    the same enlistment again, and the commit. *)
Example scenario_B :
  let s1 := after (run all_resolve (transactionManager.initProducerId tx1 initial_store)) in
  let s2 := after (run all_resolve (transactionManager.beginTransaction tx1 s1)) in
  let r3 := run all_resolve
              (transactionManager.addPartitionsToTransaction tx1 [mkTopicData "t" [0]] s2) in
  let r4 := run all_resolve
              (transactionManager.addPartitionsToTransaction tx1 [mkTopicData "t" [0]]
                 (after r3)) in
  let r5 := run all_resolve (transactionManager.commit tx1 (after r4)) in
  producerId s1 = 1000
  /\ producerEpoch s1 = 0
  /\ currentState s2 = STATES TRANSACTING
  /\ calls r3
     = [cluster_findGroupCoordinator (Some "tx-1") TRANSACTION;
        broker_addPartitionsToTxn 7 (Some "tx-1") 1000 0 [mkTopicPartitions "t" [0]]]
  /\ calls r4 = []
  /\ calls r5
     = [cluster_findGroupCoordinator (Some "tx-1") TRANSACTION;
        broker_endTxn 7 1000 0 (Some "tx-1") true]
  /\ currentState (after r5) = STATES READY
  /\ transactionTopicPartitions (after r5) = ∅.
Proof. vm_compute. repeat split. Qed.

(** The topics of a request come in the order of [Object.keys]: topics named
    like array indices first, by their number, then the others as named. *)
Example request_order :
  calls (run all_resolve
           (transactionManager.addPartitionsToTransaction tx1
              [mkTopicData "t" [0]; mkTopicData "10" [1; 1]; mkTopicData "9" [2];
               mkTopicData "t" [5]]
              (initialized_in TRANSACTING)))
  = [cluster_findGroupCoordinator (Some "tx-1") TRANSACTION;
     broker_addPartitionsToTxn 7 (Some "tx-1") 1000 0
       [mkTopicPartitions "9" [2]; mkTopicPartitions "10" [1; 1];
        mkTopicPartitions "t" [0; 5]]].
Proof. vm_compute. reflexivity. Qed.

(** * Further properties *)














Lemma all_resolve_resolves_all : resolves_all all_resolve.
Proof. intros n q. destruct q; eexists; reflexivity. Qed.


Ltac init_cases E cfg :=
  unfold transactionManager.initProducerId, bindM, run, calls, find_broker, identity_request;
  cbn [bind await run_from];
  destruct (E 0%nat cluster_refreshMetadataIfNecessary) as [?e|[]]; cbn [bind run_from];
  [|destruct (transactional cfg); cbn [bind await run_from];
    (destruct (E 1%nat _) as [?e|?b]; cbn [bind run_from];
     [|destruct (E 2%nat _) as [?e|?result] eqn:?Hreply; cbn [bind run_from]])].

(** X5: when [initProducerId] resolves it has awaited the metadata refresh,
    the coordinator (transactional) or the controller (otherwise) and one
    request to that broker, carrying the transactional id only when
    transactional; and the store is then the identity of the reply, an empty
    sequence table, an empty enlistment and the state READY, whatever it
    held before. *)
Theorem initProducerId_resolved (cfg : config) (s s' : store) (E : env) :
  (run E (transactionManager.initProducerId cfg s)).2 = Resolved s' tt ->
  exists b result,
    E 2%nat (identity_request cfg b) = inr result
    /\ calls (run E (transactionManager.initProducerId cfg s))
       = [cluster_refreshMetadataIfNecessary; find_broker cfg; identity_request cfg b]
    /\ s' = mkStore (result_producerId result) (result_producerEpoch result)
              ∅ ∅ (STATES READY).
Proof.
  init_cases E cfg; try discriminate.
  - destruct (transitionTo_result (STATES READY) s) as [[e ->]| ->];
      cbn [bind run_from modify snd]; [discriminate|].
    intros [= <-]. exists b, result. split; [exact Hreply|]. split; reflexivity.
  - destruct (transitionTo_result (STATES READY) s) as [[e ->]| ->];
      cbn [bind run_from modify snd]; [discriminate|].
    intros [= <-]. exists b, result. split; [exact Hreply|]. split; reflexivity.
Qed.

Lemma initProducerId_resolved_witness :
  exists b result,
    all_resolve 2%nat (identity_request tx1 b) = inr result
    /\ calls (run all_resolve (transactionManager.initProducerId tx1 initial_store))
       = [cluster_refreshMetadataIfNecessary; find_broker tx1; identity_request tx1 b]
    /\ mkStore 1000 0 ∅ ∅ (STATES READY)
       = mkStore (result_producerId result) (result_producerEpoch result)
           ∅ ∅ (STATES READY).
Proof.
  apply (initProducerId_resolved tx1 initial_store (mkStore 1000 0 ∅ ∅ (STATES READY))
           all_resolve).
  vm_compute. reflexivity.
Defined.

(** X6: [initProducerId] changes nothing before its last step: the store at
    each of its awaits is the store it started from, and when it is rejected,
    by a collaborator or by the transition table, the store is untouched. *)
Theorem initProducerId_rejected_untouched (cfg : config) (s : store) (E : env) :
  (forall sq, sq ∈ (run E (transactionManager.initProducerId cfg s)).1 -> sq.1 = s)
  /\ (forall s' e,
        (run E (transactionManager.initProducerId cfg s)).2 = Rejected s' e -> s' = s).
Proof.
  split.
  - init_cases E cfg;
      try (destruct (transitionTo_result (STATES READY) s) as [[?e ->]| ->];
           cbn [bind run_from modify]);
      cbn [fst]; intros sq H;
      repeat (apply elem_of_cons in H as [->|H]; [reflexivity|]); inversion H.
  - init_cases E cfg;
      try (destruct (transitionTo_result (STATES READY) s) as [[?e ->]| ->];
           cbn [bind run_from modify]);
      cbn [snd]; intros s' e' H; try discriminate; injection H as <- _; reflexivity.
Qed.

(** X7: from every state with an edge to READY, which are UNINITIALIZED,
    READY and also COMMITTING where a failed commit or abort has left the
    aggregate, [initProducerId] resolves when its calls do, and ends in
    READY with an empty sequence table and an empty enlistment. *)
Theorem initProducerId_succeeds (cfg : config) (k : state_key) (s : store) (E : env) :
  currentState s = STATES k ->
  legal_successor k READY = true ->
  resolves_all E ->
  exists s',
    (run E (transactionManager.initProducerId cfg s)).2 = Resolved s' tt
    /\ currentState s' = STATES READY
    /\ producerSequence s' = ∅
    /\ transactionTopicPartitions s' = ∅.
Proof.
  intros Hs Hl HE.
  unfold transactionManager.initProducerId, bindM, run.
  cbn [bind await run_from].
  destruct (HE 0%nat cluster_refreshMetadataIfNecessary) as [[] ->].
  cbn [bind run_from].
  destruct (transactional cfg); cbn [bind await run_from].
  - destruct (HE 1%nat (cluster_findGroupCoordinator (transactionalId cfg) TRANSACTION))
      as [b ->].
    cbn [bind run_from].
    destruct (HE 2%nat (broker_initProducerId b (transactionalId cfg) (transactionTimeout cfg)))
      as [result ->].
    cbn [bind run_from]. rewrite (transitionTo_accepts k READY s Hs Hl).
    cbn [bind run_from modify snd]. eexists. split; [reflexivity|]. repeat split.
  - destruct (HE 1%nat cluster_findControllerBroker) as [b ->].
    cbn [bind run_from].
    destruct (HE 2%nat (broker_initProducerId b None (transactionTimeout cfg)))
      as [result ->].
    cbn [bind run_from]. rewrite (transitionTo_accepts k READY s Hs Hl).
    cbn [bind run_from modify snd]. eexists. split; [reflexivity|]. repeat split.
Qed.

Lemma initProducerId_succeeds_witness :
  exists s',
    (run all_resolve (transactionManager.initProducerId tx1 (initialized_in COMMITTING))).2
    = Resolved s' tt
    /\ currentState s' = STATES READY
    /\ producerSequence s' = ∅
    /\ transactionTopicPartitions s' = ∅.
Proof.
  exact (initProducerId_succeeds tx1 COMMITTING (initialized_in COMMITTING) all_resolve
           eq_refl eq_refl all_resolve_resolves_all).
Defined.

(** X8: in TRANSACTING [initProducerId] never resolves and leaves the store
    as it was; when every call is answered it still sends its request to the
    broker and only then throws the invalid-transition error, so the identity
    in the reply is dropped. *)
Theorem initProducerId_in_transaction (cfg : config) (s : store) (E : env) :
  currentState s = STATES TRANSACTING ->
  exists e,
    (run E (transactionManager.initProducerId cfg s)).2 = Rejected s e
    /\ (resolves_all E ->
        InvalidStateTransition e = true
        /\ exists b,
            calls (run E (transactionManager.initProducerId cfg s))
            = [cluster_refreshMetadataIfNecessary; find_broker cfg;
               identity_request cfg b]).
Proof.
  intros Hs.
  destruct (transitionTo_throws TRANSACTING READY s Hs eq_refl) as (e0 & He0 & Hkind).
  unfold transactionManager.initProducerId, bindM, run, calls, find_broker, identity_request.
  cbn [bind await run_from].
  destruct (E 0%nat cluster_refreshMetadataIfNecessary) as [e|[]] eqn:H0;
    cbn [bind run_from].
  { eexists. split; [reflexivity|]. intros HE.
    destruct (HE 0%nat cluster_refreshMetadataIfNecessary) as [v Hv]. congruence. }
  destruct (transactional cfg); cbn [bind await run_from].
  - destruct (E 1%nat _) as [e|b] eqn:H1; cbn [bind run_from].
    { eexists. split; [reflexivity|]. intros HE.
      destruct (HE 1%nat (cluster_findGroupCoordinator (transactionalId cfg) TRANSACTION))
        as [v Hv]. congruence. }
    destruct (E 2%nat _) as [e|result] eqn:H2; cbn [bind run_from].
    { eexists. split; [reflexivity|]. intros HE.
      destruct (HE 2%nat (broker_initProducerId b (transactionalId cfg)
                            (transactionTimeout cfg))) as [v Hv]. congruence. }
    rewrite He0. cbn [bind run_from]. eexists. split; [reflexivity|]. intros _.
    split; [exact Hkind|]. exists b. reflexivity.
  - destruct (E 1%nat _) as [e|b] eqn:H1; cbn [bind run_from].
    { eexists. split; [reflexivity|]. intros HE.
      destruct (HE 1%nat cluster_findControllerBroker) as [v Hv]. congruence. }
    destruct (E 2%nat _) as [e|result] eqn:H2; cbn [bind run_from].
    { eexists. split; [reflexivity|]. intros HE.
      destruct (HE 2%nat (broker_initProducerId b None (transactionTimeout cfg)))
        as [v Hv]. congruence. }
    rewrite He0. cbn [bind run_from]. eexists. split; [reflexivity|]. intros _.
    split; [exact Hkind|]. exists b. reflexivity.
Qed.

Lemma initProducerId_in_transaction_witness :
  exists e,
    (run all_resolve (transactionManager.initProducerId tx1 (initialized_in TRANSACTING))).2
    = Rejected (initialized_in TRANSACTING) e
    /\ (resolves_all all_resolve ->
        InvalidStateTransition e = true
        /\ exists b,
            calls (run all_resolve
                     (transactionManager.initProducerId tx1 (initialized_in TRANSACTING)))
            = [cluster_refreshMetadataIfNecessary; find_broker tx1;
               identity_request tx1 b]).
Proof.
  exact (initProducerId_in_transaction tx1 (initialized_in TRANSACTING) all_resolve eq_refl).
Defined.




Lemma initProducerId_rejected_untouched_witness :
  (run brokers_reject (transactionManager.initProducerId tx1 (initialized_in READY))).2
  = Rejected (initialized_in READY) (CollaboratorError 48)
  /\ initialized_in READY = initialized_in READY.
Proof.
  assert ((run brokers_reject
             (transactionManager.initProducerId tx1 (initialized_in READY))).2
          = Rejected (initialized_in READY) (CollaboratorError 48)) as Hrun
    by (vm_compute; reflexivity).
  split; [exact Hrun|].
  exact (proj2 (initProducerId_rejected_untouched tx1 (initialized_in READY) brokers_reject)
           _ _ Hrun).
Defined.

Lemma holds_bind {A B : Type} (I : store -> Prop) (p : proc A) (f : A -> M B) :
  holds_throughout I p ->
  (forall a s, I s -> holds_throughout I (f a s)) ->
  holds_throughout I (bind p f).
Proof.
  intros Hp Hf. induction p as [s a|s e|s q k IH]; cbn [bind holds_throughout] in *.
  - apply Hf. exact Hp.
  - exact Hp.
  - destruct Hp as [Hs Hk]. split; [exact Hs|].
    intros r s' Hs'. apply IH. apply Hk. exact Hs'.
Qed.

Lemma holds_await (I : store -> Prop) (q : call) (s : store) :
  I s -> holds_throughout I (await q s).
Proof.
  intros Hs. cbn. split; [exact Hs|]. intros [e|v] s' Hs'; exact Hs'.
Qed.

Lemma holds_forEach {A : Type} (I : store -> Prop) (l : list A) (f : A -> M unit) (s : store) :
  (forall x s, I s -> holds_throughout I (f x s)) ->
  I s -> holds_throughout I (forEach l f s).
Proof.
  intros Hf. revert s. induction l as [|x l IH]; intros s Hs; cbn [forEach].
  - exact Hs.
  - unfold bindM. apply holds_bind; [apply Hf; exact Hs|]. intros _ s' Hs'. apply IH. exact Hs'.
Qed.

Lemma transitionTo_state_known (target : state_key) (s : store) :
  target <> UNINITIALIZED ->
  state_known s -> holds_throughout state_known (stateMachine.transitionTo (STATES target) s).
Proof.
  intros Ht Hs.
  destruct (transitionTo_result (STATES target) s) as [[e ->]| ->]; cbn; [exact Hs|].
  split; [exists target; reflexivity|].
  cbn [currentState set_currentState]. intros H. destruct target; try discriminate.
  contradiction.
Qed.

Lemma state_known_enlistment (m : gmap string (gmap Z bool)) (s : store) :
  state_known s -> state_known (set_transactionTopicPartitions m s).
Proof. intros H. exact H. Qed.

Lemma state_known_sequence (m : gmap string (gmap Z Z)) (s : store) :
  state_known s -> state_known (set_producerSequence m s).
Proof. intros H. exact H. Qed.

(** X4: the current state stays one of the values of [STATES], and stays
    different from UNINITIALIZED once a producer id is assigned, whatever
    operations are called and however their runs interleave; so
    [transitionTo] always finds a row of [VALID_TRANSITIONS]. *)
Theorem state_stays_known (cfg : config) (op : operation) (s : store) :
  state_known s ->
  holds_throughout state_known (invoke (transactionManager.guarded cfg) op s).
Proof.
  intros Hs. destruct op; cbn [invoke transactionManager.guarded stateMachine.guard
    transactionManager.literal prop_initProducerId prop_beginTransaction prop_getSequence
    prop_updateSequence prop_addPartitionsToTransaction prop_commit prop_abort].
  - (* initProducerId *)
    unfold transactionManager.initProducerId, bindM.
    apply holds_bind; [apply holds_await; exact Hs|]. intros _ s1 Hs1.
    apply holds_bind.
    { destruct (transactional cfg);
        [exact (holds_await state_known
                  (cluster_findGroupCoordinator (transactionalId cfg) TRANSACTION) s1 Hs1)
        |exact (holds_await state_known cluster_findControllerBroker s1 Hs1)]. }
    intros b s2 Hs2. apply holds_bind; [apply holds_await; exact Hs2|].
    intros result s3 Hs3.
    destruct (transitionTo_result (STATES READY) s3) as [[e ->]| ->]; cbn; [exact Hs3|].
    split; [exists READY; reflexivity | discriminate].
  - (* beginTransaction *)
    unfold transactionManager.beginTransaction, transactionManager.transactionalGuard, bindM.
    destruct (transactional cfg); cbn [negb ret throw bind]; [|exact Hs].
    apply transitionTo_state_known; [discriminate | exact Hs].
  - (* getSequence *)
    unfold bindM.
    destruct (decide (producerId s = NO_PRODUCER_ID)) as [Hinit|Hinit].
    + rewrite (getSequence_uninitialized _ _ s Hinit). exact Hs.
    + rewrite (getSequence_initialized _ _ s Hinit). exact Hs.
  - (* updateSequence *)
    destruct (decide (producerId s = NO_PRODUCER_ID)) as [Hinit|Hinit].
    + rewrite (updateSequence_uninitialized _ _ _ s Hinit). exact Hs.
    + rewrite (updateSequence_initialized _ _ _ s Hinit). exact Hs.
  - (* addPartitionsToTransaction *)
    unfold transactionManager.addPartitionsToTransaction,
      transactionManager.transactionalGuard, bindM.
    destruct (transactional cfg); cbn [negb ret throw bind gets modify]; [|exact Hs].
    destruct (transactionManager.collect_topics topicData (transactionTopicPartitions s) []).2
      as [e|newTopicPartitions]; [exact Hs|].
    apply holds_bind.
    { destruct (List.length _ =? 0)%nat; [exact Hs|].
      apply holds_bind; [apply holds_await; exact Hs|]. intros b s1 Hs1.
      cbn [gets bind]. apply holds_await. exact Hs1. }
    intros _ s1 Hs1. apply holds_forEach; [|exact Hs1].
    intros tp s2 Hs2. apply holds_forEach; [|exact Hs2].
    intros partition s3 Hs3. unfold transactionManager.assign_enlisted.
    destruct (transactionTopicPartitions s3 !! tp_topic tp); exact Hs3.
  - (* commit *)
    unfold transactionManager.commit, transactionManager.transactionalGuard, bindM.
    destruct (transactional cfg); cbn [negb ret throw bind]; [|exact Hs].
    apply holds_bind; [apply transitionTo_state_known; [discriminate | exact Hs]|].
    intros _ s1 Hs1. apply holds_bind; [apply holds_await; exact Hs1|].
    intros b s2 Hs2. cbn [gets bind].
    apply holds_bind; [apply holds_await; exact Hs2|].
    intros _ s3 Hs3. apply transitionTo_state_known; [discriminate | exact Hs3].
  - (* abort *)
    unfold transactionManager.abort, transactionManager.transactionalGuard, bindM.
    destruct (transactional cfg); cbn [negb ret throw bind]; [|exact Hs].
    apply holds_bind; [apply transitionTo_state_known; [discriminate | exact Hs]|].
    intros _ s1 Hs1. apply holds_bind; [apply holds_await; exact Hs1|].
    intros b s2 Hs2. cbn [gets bind].
    apply holds_bind; [apply holds_await; exact Hs2|].
    intros _ s3 Hs3. apply transitionTo_state_known; [discriminate | exact Hs3].
Qed.

Lemma state_stays_known_witness :
  holds_throughout state_known
    (invoke (transactionManager.guarded tx1) call_commit (initialized_in TRANSACTING)).
Proof.
  apply (state_stays_known tx1 call_commit (initialized_in TRANSACTING)).
  split; [exists TRANSACTING; reflexivity | discriminate].
Defined.

(** X2: on an aggregate that is not transactional, [beginTransaction],
    [addPartitionsToTransaction], [commit] and [abort] throw the
    unavailable-method error at once, in every state, with the store as it
    was and no call awaited. *)
Theorem transactional_only_operations (cfg : config) (s : store) :
  transactional cfg = false ->
  exists e,
    TransactionalOperationUnavailable e = true
    /\ transactionManager.beginTransaction cfg s = Throw s e
    /\ (forall topicData,
          transactionManager.addPartitionsToTransaction cfg topicData s = Throw s e)
    /\ transactionManager.commit cfg s = Throw s e
    /\ transactionManager.abort cfg s = Throw s e.
Proof.
  intros Ht. eexists. split; [|repeat split].
  2: { unfold transactionManager.beginTransaction, transactionManager.transactionalGuard,
         bindM. rewrite Ht. reflexivity. }
  - reflexivity.
  - intros topicData.
    unfold transactionManager.addPartitionsToTransaction,
      transactionManager.transactionalGuard, bindM. rewrite Ht. reflexivity.
  - unfold transactionManager.commit, transactionManager.transactionalGuard, bindM.
    rewrite Ht. reflexivity.
  - unfold transactionManager.abort, transactionManager.transactionalGuard, bindM.
    rewrite Ht. reflexivity.
Qed.

Lemma transactional_only_operations_witness :
  exists e,
    TransactionalOperationUnavailable e = true
    /\ transactionManager.beginTransaction plain initial_store = Throw initial_store e
    /\ (forall topicData,
          transactionManager.addPartitionsToTransaction plain topicData initial_store
          = Throw initial_store e)
    /\ transactionManager.commit plain initial_store = Throw initial_store e
    /\ transactionManager.abort plain initial_store = Throw initial_store e.
Proof. exact (transactional_only_operations plain initial_store eq_refl). Defined.

(** X3: an aggregate that is not transactional never leaves UNINITIALIZED
    and READY and never has a partition enlisted, whatever operations are
    called and however their runs interleave. *)
Theorem plain_producer_never_transacts (cfg : config) (op : operation) (s : store) :
  transactional cfg = false ->
  never_transacting s ->
  holds_throughout never_transacting (invoke (transactionManager.guarded cfg) op s).
Proof.
  intros Ht Hs.
  assert (transactionManager.transactionalGuard cfg s
          = Throw s (KafkaJSNonRetriableError "Method unavailable if non-transactional"))
    as Hguard
    by (unfold transactionManager.transactionalGuard; rewrite Ht; reflexivity).
  destruct op; cbn [invoke transactionManager.guarded stateMachine.guard
    transactionManager.literal prop_initProducerId prop_beginTransaction prop_getSequence
    prop_updateSequence prop_addPartitionsToTransaction prop_commit prop_abort].
  - unfold transactionManager.initProducerId, bindM. rewrite Ht.
    apply holds_bind; [apply holds_await; exact Hs|]. intros _ s1 Hs1.
    apply holds_bind;
      [exact (holds_await never_transacting cluster_findControllerBroker s1 Hs1)|].
    intros b s2 Hs2. apply holds_bind; [apply holds_await; exact Hs2|].
    intros result s3 Hs3.
    destruct (transitionTo_result (STATES READY) s3) as [[e' ->]| ->]; cbn; [exact Hs3|].
    split; [right; reflexivity | reflexivity].
  - unfold transactionManager.beginTransaction, bindM. rewrite Hguard. exact Hs.
  - unfold bindM.
    destruct (decide (producerId s = NO_PRODUCER_ID)) as [Hinit|Hinit].
    + rewrite (getSequence_uninitialized _ _ s Hinit). exact Hs.
    + rewrite (getSequence_initialized _ _ s Hinit). exact Hs.
  - destruct (decide (producerId s = NO_PRODUCER_ID)) as [Hinit|Hinit].
    + rewrite (updateSequence_uninitialized _ _ _ s Hinit). exact Hs.
    + rewrite (updateSequence_initialized _ _ _ s Hinit). exact Hs.
  - unfold transactionManager.addPartitionsToTransaction, bindM. rewrite Hguard. exact Hs.
  - unfold transactionManager.commit, bindM. rewrite Hguard. exact Hs.
  - unfold transactionManager.abort, bindM. rewrite Hguard. exact Hs.
Qed.

Lemma plain_producer_never_transacts_witness :
  holds_throughout never_transacting
    (invoke (transactionManager.guarded plain) call_initProducerId initial_store).
Proof.
  apply (plain_producer_never_transacts plain call_initProducerId initial_store eq_refl).
  split; [left; reflexivity | reflexivity].
Defined.

(** X1: the factory throws exactly for a transactional configuration whose
    [transactionalId] is missing or the empty string; in every other case it
    returns the object. *)
Theorem factory_requires_transactionalId (cfg : config) :
  ((exists e, createTransactionManager cfg = inl e)
   <-> transactional cfg = true
       /\ (transactionalId cfg = None \/ transactionalId cfg = Some EmptyString))
  /\ ((forall e, createTransactionManager cfg <> inl e)
      -> createTransactionManager cfg = inr (transactionManager.guarded cfg)).
Proof.
  unfold createTransactionManager, truthy_string.
  destruct cfg as [t tid timeout]. cbn [transactional transactionalId].
  destruct t; cbn [andb].
  - destruct tid as [id|]; cbn [negb].
    + destruct (String.eqb_spec id EmptyString) as [->|Hne]; cbn [negb].
      * split; [split; [auto | eauto]|]. intros H. destruct (H _ eq_refl).
      * split; [|reflexivity]. split.
        -- intros [e He]. discriminate.
        -- intros [_ [H|H]]; [discriminate | congruence].
    + split; [split; [auto | eauto]|]. intros H. destruct (H _ eq_refl).
  - split; [|reflexivity]. split.
    + intros [e He]. discriminate.
    + intros [H _]. discriminate.
Qed.

Lemma factory_requires_transactionalId_witness :
  exists e, createTransactionManager (mkConfig true (Some EmptyString) None) = inl e.
Proof.
  apply (proj2 (proj1 (factory_requires_transactionalId
                         (mkConfig true (Some EmptyString) None)))).
  split; [reflexivity | right; reflexivity].
Defined.
























Lemma run_among_alone {A : Type} (n : nat) (E : env) (p : proc A) :
  run_among n E (fun _ s => s) p = run_from n E p.
Proof.
  revert n. induction p as [s a|s e|s q k IH]; intros n; cbn; try reflexivity.
  rewrite IH. reflexivity.
Qed.





